(** * Timetable management: the assignment engine of [main.py]

    A shallow embedding of the class [TimetableManager] (src/main.py) and
    the properties of its greedy scheduler.

    Conventions of the embedding.
    - Professor ids, group ids, room ids and class names are Python strings
      ([string]); a time slot is the pair of strings the example data uses
      (day, period).
    - Sizes and capacities are Python integers ([Z]).
    - Python dicts are finite maps ([gmap]); a dict comprehension is a left
      fold of insertions, so that a repeated key keeps its last value.
    - Methods run in a state-and-exception monad over the object [self];
      [d[k]] on a missing key raises [KeyError], and whatever was mutated
      before the exception stays mutated.
    - [print] appends a line to [stdout].
    - The iteration order of a Python [set] is not specified by the language:
      it is a parameter of the development ([SetOrder]), and every theorem
      holds for every iteration order. *)

From stdpp Require Import base option list strings gmap pretty.
From Stdlib Require Import ZArith.

(** ** Data model *)

(** A time slot, e.g. [("Monday", "9:00-10:00")]. *)
Definition Slot : Type := string * string.

(** A class session: the dict [{'name':, 'professor':, 'group':, 'size':}];
    the key ['size'] may be absent. *)
Record Class := {
  cls_name : string;
  cls_professor : string;
  cls_group : string;
  cls_size : option Z
}.

(** [cls.get('size', 20)] *)
Definition size_or_default (cls : Class) : Z := default 20%Z (cls_size cls).

(** The occupancy record stored in a professor's schedule:
    [{'class':, 'room':, 'group':}]. *)
Record ProfEntry := {
  pe_class : string;
  pe_room : string;
  pe_group : string
}.

(** The occupancy record stored in a group's schedule:
    [{'class':, 'room':, 'professor':}]. *)
Record GroupEntry := {
  ge_class : string;
  ge_room : string;
  ge_professor : string
}.

#[global] Instance Class_eq_dec : EqDecision Class.
Proof. solve_decision. Defined.
#[global] Instance ProfEntry_eq_dec : EqDecision ProfEntry.
Proof. solve_decision. Defined.
#[global] Instance GroupEntry_eq_dec : EqDecision GroupEntry.
Proof. solve_decision. Defined.

(** The fields of a [TimetableManager] object. *)
Record TimetableManager := {
  classes : list Class;
  professors : list string;
  groups : list string;
  time_slots : list Slot;
  rooms : list string;
  room_capacity : gmap string Z;
  class_sizes : gmap string Z;
  professor_preferences : gmap string (list Slot);
  group_preferences : gmap string (list Slot);
  professor_schedule : gmap string (gmap Slot ProfEntry);
  group_schedule : gmap string (gmap Slot GroupEntry)
}.

(** Field assignments [self.f = v] for the fields the methods write. *)
Definition with_professor_preferences
    (v : gmap string (list Slot)) (m : TimetableManager) : TimetableManager :=
  {| classes := classes m; professors := professors m; groups := groups m;
     time_slots := time_slots m; rooms := rooms m;
     room_capacity := room_capacity m; class_sizes := class_sizes m;
     professor_preferences := v;
     group_preferences := group_preferences m;
     professor_schedule := professor_schedule m;
     group_schedule := group_schedule m |}.

Definition with_group_preferences
    (v : gmap string (list Slot)) (m : TimetableManager) : TimetableManager :=
  {| classes := classes m; professors := professors m; groups := groups m;
     time_slots := time_slots m; rooms := rooms m;
     room_capacity := room_capacity m; class_sizes := class_sizes m;
     professor_preferences := professor_preferences m;
     group_preferences := v;
     professor_schedule := professor_schedule m;
     group_schedule := group_schedule m |}.

Definition with_professor_schedule
    (v : gmap string (gmap Slot ProfEntry)) (m : TimetableManager)
    : TimetableManager :=
  {| classes := classes m; professors := professors m; groups := groups m;
     time_slots := time_slots m; rooms := rooms m;
     room_capacity := room_capacity m; class_sizes := class_sizes m;
     professor_preferences := professor_preferences m;
     group_preferences := group_preferences m;
     professor_schedule := v;
     group_schedule := group_schedule m |}.

Definition with_group_schedule
    (v : gmap string (gmap Slot GroupEntry)) (m : TimetableManager)
    : TimetableManager :=
  {| classes := classes m; professors := professors m; groups := groups m;
     time_slots := time_slots m; rooms := rooms m;
     room_capacity := room_capacity m; class_sizes := class_sizes m;
     professor_preferences := professor_preferences m;
     group_preferences := group_preferences m;
     professor_schedule := professor_schedule m;
     group_schedule := v |}.

(** ** Python dict comprehensions *)

(** [{key(x): value(x) for x in l}]: insertions from left to right, a later
    item overwrites an earlier one with the same key. *)
Definition dict_comp {A V} (key : A → string) (value : A → V) (l : list A)
    : gmap string V :=
  foldl (λ d x, <[key x := value x]> d) ∅ l.

(** ** The state-and-exception monad of the methods *)

Inductive exn := KeyError (key : string).

Inductive outcome (A : Type) :=
  | Return (a : A)
  | Raise (e : exn).
Arguments Return {A} a.
Arguments Raise {A} e.

(** One call of [assign_schedule], as the call sequence of a run records it. *)
Record Booking := {
  bk_class : Class;
  bk_slot : Slot;
  bk_room : string
}.

(** What a method can touch: the object, the lines printed so far, and
    (instrumentation, never read by the methods) the calls of
    [assign_schedule] made so far, oldest first. *)
Record World := {
  mgr : TimetableManager;
  stdout : list string;
  journal : list Booking
}.

Definition M (A : Type) : Type := World → outcome A * World.

#[global] Instance M_ret : MRet M := λ A a w, (Return a, w).

#[global] Instance M_bind : MBind M := λ A B f c w,
  match c w with
  | (Return a, w') => f a w'
  | (Raise e, w') => (Raise e, w')
  end.

Definition raise {A} (e : exn) : M A := λ w, (Raise e, w).

(** Read a field of [self]. *)
Definition gets {A} (f : TimetableManager → A) : M A :=
  λ w, (Return (f (mgr w)), w).

(** Mutate [self]. *)
Definition modify (f : TimetableManager → TimetableManager) : M unit :=
  λ w, (Return tt,
        {| mgr := f (mgr w); stdout := stdout w; journal := journal w |}).

(** [print(line)] *)
Definition print (line : string) : M unit :=
  λ w, (Return tt,
        {| mgr := mgr w; stdout := stdout w ++ [line]; journal := journal w |}).

(** Instrumentation: note a call of [assign_schedule]. *)
Definition note (b : Booking) : M unit :=
  λ w, (Return tt,
        {| mgr := mgr w; stdout := stdout w; journal := journal w ++ [b] |}).

(** [d[k]] for a dict with string keys. *)
Definition getitem {V} (d : gmap string V) (k : string) : M V :=
  match d !! k with
  | Some v => mret v
  | None => raise (KeyError k)
  end.

(** [self.field[k]] *)
Definition self_getitem {V} (field : TimetableManager → gmap string V)
    (k : string) : M V :=
  d ← gets field; getitem d k.

(** [all(p(x) for x in l)]: the generator is consumed up to the first
    falsy item. *)
Fixpoint all_of {A} (p : A → M bool) (l : list A) : M bool :=
  match l with
  | [] => mret true
  | x :: rest => b ← p x; if b : bool then all_of p rest else mret false
  end.

(** [for x in l: body(x)], without [break]. *)
Fixpoint for_each {A} (body : A → M unit) (l : list A) : M unit :=
  match l with
  | [] => mret tt
  | x :: rest => body x;; for_each body rest
  end.

(** ** Iteration order of Python sets *)

(** [list(set(a) & set(b))] lists every common element of [a] and [b] once,
    in an order the language leaves open. *)
Record SetOrder := {
  intersection_list : list Slot → list Slot → list Slot;
  intersection_list_NoDup : ∀ a b, NoDup (intersection_list a b);
  intersection_list_elem :
    ∀ a b x, x ∈ intersection_list a b ↔ x ∈ a ∧ x ∈ b
}.

(** One possible order: that of the first list. *)
Definition first_list_intersection (a b : list Slot) : list Slot :=
  remove_dups (filter (λ x, x ∈ b) a).

Program Definition first_list_order : SetOrder :=
  {| intersection_list := first_list_intersection |}.
Next Obligation. intros a b. apply NoDup_remove_dups. Qed.
Next Obligation.
  intros a b x. unfold first_list_intersection.
  rewrite elem_of_remove_dups, list_elem_of_filter. tauto.
Qed.

(** Another one: that of the second list, reversed. *)
Program Definition second_list_rev_order : SetOrder :=
  {| intersection_list a b := reverse (first_list_intersection b a) |}.
Next Obligation.
  intros a b. rewrite reverse_Permutation. apply NoDup_remove_dups.
Qed.
Next Obligation.
  intros a b x. unfold first_list_intersection.
  rewrite elem_of_reverse, elem_of_remove_dups, list_elem_of_filter. tauto.
Qed.

(** ** The methods of [TimetableManager] *)

(** Truth value of the argument [room_capacities]: [None] and the empty dict
    are falsy. *)
Definition truthy (room_capacities : option (gmap string Z)) : bool :=
  match room_capacities with
  | Some d => negb (bool_decide (d = ∅))
  | None => false
  end.

(** [__init__] *)
Definition init (cs : list Class) (profs grps : list string)
    (slots : list Slot) (rms : list string)
    (room_capacities : option (gmap string Z)) : TimetableManager :=
  {| classes := cs;
     professors := profs;
     groups := grps;
     time_slots := slots;
     rooms := rms;
     room_capacity :=
       if truthy room_capacities then default ∅ room_capacities
       else dict_comp id (λ _, 30%Z) rms;
     class_sizes := dict_comp cls_name size_or_default cs;
     professor_preferences := dict_comp id (λ _, []) profs;
     group_preferences := dict_comp id (λ _, []) grps;
     professor_schedule := dict_comp id (λ _, ∅) profs;
     group_schedule := dict_comp id (λ _, ∅) grps |}.

(** The world right after construction: nothing printed, nothing assigned. *)
Definition fresh (m : TimetableManager) : World :=
  {| mgr := m; stdout := []; journal := [] |}.

(** [set_professor_preferences] *)
Definition set_professor_preferences (professor : string)
    (preferences : list Slot) : M unit :=
  known ← gets (λ m, bool_decide (is_Some (professor_preferences m !! professor)));
  if known : bool then
    modify (λ m, with_professor_preferences
                   (<[professor := preferences]> (professor_preferences m)) m)
  else mret tt.

(** [set_group_preferences] *)
Definition set_group_preferences (group : string)
    (preferences : list Slot) : M unit :=
  known ← gets (λ m, bool_decide (is_Some (group_preferences m !! group)));
  if known : bool then
    modify (λ m, with_group_preferences
                   (<[group := preferences]> (group_preferences m)) m)
  else mret tt.

(** [time_slot in schedule] *)
Definition slot_in {V} (schedule : gmap Slot V) (time_slot : Slot) : bool :=
  match schedule !! time_slot with Some _ => true | None => false end.

(** The two records [assign_schedule] stores. *)
Definition prof_entry (cls : Class) (room : string) : ProfEntry :=
  {| pe_class := cls_name cls; pe_room := room; pe_group := cls_group cls |}.

Definition group_entry (cls : Class) (room : string) : GroupEntry :=
  {| ge_class := cls_name cls; ge_room := room;
     ge_professor := cls_professor cls |}.

(** [is_valid]; [and] evaluates its right operand only when the left one is
    true. *)
Definition is_valid (cls : Class) (time_slot : Slot) (room : string)
    : M bool :=
  let prof := cls_professor cls in
  let group := cls_group cls in
  class_size ← self_getitem class_sizes (cls_name cls);
  psched ← self_getitem professor_schedule prof;
  if slot_in psched time_slot then mret false else
  gsched ← self_getitem group_schedule group;
  if slot_in gsched time_slot then mret false else
  capacity ← self_getitem room_capacity room;
  mret (bool_decide (class_size ≤ capacity)%Z).

(** [assign_schedule] *)
Definition assign_schedule (cls : Class) (time_slot : Slot) (room : string)
    : M unit :=
  let prof := cls_professor cls in
  let group := cls_group cls in
  note {| bk_class := cls; bk_slot := time_slot; bk_room := room |};;
  psched ← self_getitem professor_schedule prof;
  modify (λ m, with_professor_schedule
                 (<[prof := <[time_slot := prof_entry cls room]> psched]>
                    (professor_schedule m)) m);;
  gsched ← self_getitem group_schedule group;
  modify (λ m, with_group_schedule
                 (<[group := <[time_slot := group_entry cls room]> gsched]>
                    (group_schedule m)) m).

(** The three messages of [provide_feedback]. *)
Definition professor_issue (prof : string) : string :=
  "No available time slots for professor " +:+ prof +:+ ".".

Definition group_issue (group : string) : string :=
  "No available time slots for group " +:+ group +:+ ".".

Definition room_issue (name : string) (class_size : Z) : string :=
  "No rooms with sufficient capacity for class " +:+ name +:+ " (size: "
    +:+ pretty class_size +:+ ").".

Definition feedback_header (cls : Class) : string :=
  "Unable to assign class " +:+ cls_name cls +:+ " for group "
    +:+ cls_group cls +:+ " by professor " +:+ cls_professor cls
    +:+ ". Reasons:".

(** The first part of [provide_feedback]: the list [issues]. *)
Definition feedback_issues (cls : Class) : M (list string) :=
  let prof := cls_professor cls in
  let group := cls_group cls in
  class_size ← self_getitem class_sizes (cls_name cls);
  slots ← gets time_slots;
  prof_full ← all_of (λ time_slot,
      psched ← self_getitem professor_schedule prof;
      mret (slot_in psched time_slot)) slots;
  let issues := if prof_full : bool then [professor_issue prof] else [] in
  slots ← gets time_slots;
  group_full ← all_of (λ time_slot,
      gsched ← self_getitem group_schedule group;
      mret (slot_in gsched time_slot)) slots;
  let issues :=
    issues ++ if group_full : bool then [group_issue group] else [] in
  rms ← gets rooms;
  no_room ← all_of (λ room,
      capacity ← self_getitem room_capacity room;
      mret (bool_decide (class_size > capacity)%Z)) rms;
  let issues :=
    issues ++ if no_room : bool
              then [room_issue (cls_name cls) class_size] else [] in
  mret issues.

(** [provide_feedback] *)
Definition provide_feedback (cls : Class) : M unit :=
  issues ← feedback_issues cls;
  match issues with
  | [] => mret tt
  | _ :: _ =>
      print (feedback_header cls);;
      for_each (λ issue, print ("- " +:+ issue)) issues
  end.

(** The inner loop of [generate_schedule], [for room in self.rooms]; the
    result is the flag [assigned]. *)
Fixpoint try_rooms (cls : Class) (time_slot : Slot) (rms : list string)
    : M bool :=
  match rms with
  | [] => mret false
  | room :: rest =>
      ok ← is_valid cls time_slot room;
      if ok : bool then assign_schedule cls time_slot room;; mret true
      else try_rooms cls time_slot rest
  end.

(** The middle loop, [for time_slot in preferred_slots + self.time_slots]. *)
Fixpoint try_slots (cls : Class) (candidates : list Slot) : M bool :=
  match candidates with
  | [] => mret false
  | time_slot :: rest =>
      rms ← gets rooms;
      assigned ← try_rooms cls time_slot rms;
      if assigned : bool then mret true else try_slots cls rest
  end.

Section Scheduler.

(** The iteration order of sets in the running interpreter. *)
Variable order : SetOrder.

(** [get_preferred_slots] *)
Definition get_preferred_slots (cls : Class) : M (list Slot) :=
  prof_preferences ←
    gets (λ m, default [] (professor_preferences m !! cls_professor cls));
  group_preferences ←
    gets (λ m, default [] (group_preferences m !! cls_group cls));
  mret (intersection_list order prof_preferences group_preferences).

(** The body of the outer loop of [generate_schedule]. *)
Definition schedule_class (cls : Class) : M unit :=
  preferred_slots ← get_preferred_slots cls;
  slots ← gets time_slots;
  assigned ← try_slots cls (preferred_slots ++ slots);
  if assigned : bool then mret tt else provide_feedback cls.

(** [generate_schedule] *)
Definition generate_schedule : M unit :=
  cs ← gets classes;
  for_each schedule_class cs.

End Scheduler.

(** ** The example at the end of [main.py] *)

Module Example.

Definition rooms : list string := ["Room 101"; "Room 102"; "Room 103"].

Definition room_capacities : gmap string Z :=
  <["Room 103" := 40%Z]> (<["Room 102" := 50%Z]> (<["Room 101" := 20%Z]> ∅)).

Definition Math : Class :=
  {| cls_name := "Math"; cls_professor := "Prof. A"; cls_group := "Group 1";
     cls_size := Some 25%Z |}.
Definition Physics : Class :=
  {| cls_name := "Physics"; cls_professor := "Prof. B";
     cls_group := "Group 2"; cls_size := Some 20%Z |}.
Definition Chemistry : Class :=
  {| cls_name := "Chemistry"; cls_professor := "Prof. C";
     cls_group := "Group 3"; cls_size := Some 35%Z |}.

Definition classes : list Class :=
  [Math; Physics; Chemistry; Chemistry; Chemistry].

Definition professors : list string := ["Prof. A"; "Prof. B"; "Prof. C"].
Definition groups : list string := ["Group 1"; "Group 2"; "Group 3"].

Definition Mon9 : Slot := ("Monday", "9:00-10:00").
Definition Mon10 : Slot := ("Monday", "10:00-11:00").
Definition Mon11 : Slot := ("Monday", "11:00-12:00").
Definition Tue9 : Slot := ("Tuesday", "9:00-10:00").
Definition Tue10 : Slot := ("Tuesday", "10:00-11:00").
Definition Tue11 : Slot := ("Tuesday", "11:00-12:00").

Definition time_slots : list Slot := [Mon9; Mon10; Mon11; Tue9; Tue10; Tue11].

Definition timetable_manager : TimetableManager :=
  init classes professors groups time_slots rooms (Some room_capacities).

(** The two setter calls of the script. *)
Definition configure : M unit :=
  set_professor_preferences "Prof. A" [Mon9; Tue10];;
  set_group_preferences "Group 1" [Mon9; Mon10].

Definition configured : World := (configure (fresh timetable_manager)).2.

(** The script up to and including [generate_schedule()]. *)
Definition script (order : SetOrder) : M unit :=
  configure;; generate_schedule order.

Definition run (order : SetOrder) : outcome unit * World :=
  script order (fresh timetable_manager).

End Example.


(** * Specification vocabulary *)

(** ** Inputs used in examples and counterexamples *)

(** A room list only partly covered by the capacity dict. *)
Module PartialRooms.

Definition s : Slot := ("Monday", "9:00-10:00").

Definition X : Class :=
  {| cls_name := "X"; cls_professor := "P"; cls_group := "G";
     cls_size := Some 20%Z |}.

Definition Y : Class :=
  {| cls_name := "Y"; cls_professor := "P"; cls_group := "G";
     cls_size := Some 100%Z |}.

(** [TimetableManager([X], ['P'], ['G'], [s], ['R1', 'R2'], {'R2': 50})]
    with [s] preferred by both ['P'] and ['G']. *)
Definition preferring : World :=
  ((set_professor_preferences "P" [s];; set_group_preferences "G" [s])
     (fresh (init [X] ["P"] ["G"] [s] ["R1"; "R2"]
               (Some (<["R2" := 50%Z]> ∅))))).2.

(** [TimetableManager([X, Y], ['P'], ['G'], [s], ['R1', 'R2'], {'R1': 50})] *)
Definition two_classes : World :=
  fresh (init [X; Y] ["P"] ["G"] [s] ["R1"; "R2"]
           (Some (<["R1" := 50%Z]> ∅))).

End PartialRooms.

(** A class whose professor is not in the professor list, and no room. *)
Module UnknownProfessor.

Definition Seminar : Class :=
  {| cls_name := "Seminar"; cls_professor := "Q"; cls_group := "G";
     cls_size := None |}.

(** [TimetableManager([Seminar], ['P'], ['G'], [s], [])] *)
Definition world : World :=
  fresh (init [Seminar] ["P"] ["G"] [PartialRooms.s] [] None).

End UnknownProfessor.

(** One slot, one room, no capacity dict. *)
Module OneSlot.

Definition world : World :=
  fresh (init [PartialRooms.X; PartialRooms.X] ["P"] ["G"] [PartialRooms.s]
           ["R1"] None).

(** After the first of the two sessions was processed. *)
Definition after_first : World :=
  (schedule_class first_list_order PartialRooms.X world).2.

End OneSlot.

(** Two sessions of one name with different sizes. *)
Module SharedName.

Definition s : Slot := ("Monday", "9:00-10:00").

Definition Lecture : Class :=
  {| cls_name := "Algebra"; cls_professor := "P1"; cls_group := "G1";
     cls_size := Some 100%Z |}.

Definition Tutorial : Class :=
  {| cls_name := "Algebra"; cls_professor := "P2"; cls_group := "G2";
     cls_size := Some 10%Z |}.

(** [TimetableManager([Lecture, Tutorial], ['P1', 'P2'], ['G1', 'G2'], [s],
    ['R'], {'R': 30})] *)
Definition world : World :=
  fresh (init [Lecture; Tutorial] ["P1"; "P2"] ["G1"; "G2"] [s] ["R"]
           (Some (<["R" := 30%Z]> ∅))).

End SharedName.

(** Three sessions of one name: the first and the last of size 10, the one
    in between of size 20; one room of capacity 15. *)
Module ThreeSessions.

Definition s : Slot := ("Monday", "9:00-10:00").

Definition A1 : Class :=
  {| cls_name := "A"; cls_professor := "P1"; cls_group := "G1";
     cls_size := Some 10%Z |}.

Definition A2 : Class :=
  {| cls_name := "A"; cls_professor := "P2"; cls_group := "G2";
     cls_size := Some 20%Z |}.

Definition A3 : Class :=
  {| cls_name := "A"; cls_professor := "P3"; cls_group := "G3";
     cls_size := Some 10%Z |}.

Definition classes : list Class := [A1; A2; A3].
Definition professors : list string := ["P1"; "P2"; "P3"].
Definition groups : list string := ["G1"; "G2"; "G3"].
Definition room_capacities : gmap string Z := <["R" := 15%Z]> ∅.

(** [TimetableManager([A1, A2, A3], ['P1', 'P2', 'P3'], ['G1', 'G2', 'G3'],
    [s], ['R'], {'R': 15})] *)
Definition world : World :=
  fresh (init classes professors groups [s] ["R"] (Some room_capacities)).

End ThreeSessions.

(** ** Properties of computations *)

(** A computation that leaves [self], the output and the journal alone. *)
Definition read_only {A} (c : M A) : Prop := ∀ w, (c w).2 = w.

(** [c] keeps the property [I] of worlds, whether it returns or raises. *)
Definition preserves (I : World → Prop) {A} (c : M A) : Prop :=
  ∀ w, I w → I (c w).2.

(** ** What the methods compute *)

(** The verdict of [is_valid] on a manager. *)
Definition valid (m : TimetableManager) (cls : Class) (time_slot : Slot)
    (room : string) : outcome bool :=
  (is_valid cls time_slot room (fresh m)).1.

(** The world after [assign_schedule] went through. *)
Definition booked (cls : Class) (t : Slot) (room : string)
    (psched : gmap Slot ProfEntry) (gsched : gmap Slot GroupEntry)
    (w : World) : World :=
  {| mgr :=
       with_group_schedule
         (<[cls_group cls := <[t := group_entry cls room]> gsched]>
            (group_schedule (mgr w)))
         (with_professor_schedule
            (<[cls_professor cls := <[t := prof_entry cls room]> psched]>
               (professor_schedule (mgr w)))
            (mgr w));
     stdout := stdout w;
     journal :=
       journal w ++ [{| bk_class := cls; bk_slot := t; bk_room := room |}] |}.

(** The lines [provide_feedback] prints for a list of issues. *)
Definition report (cls : Class) (issues : list string) : list string :=
  match issues with
  | [] => []
  | _ :: _ => feedback_header cls :: ((λ issue, "- " +:+ issue) <$> issues)
  end.

(** The world after [lines] were printed. *)
Definition printed (lines : list string) (w : World) : World :=
  {| mgr := mgr w; stdout := stdout w ++ lines; journal := journal w |}.

(** ** A session: construction, configuration, one run *)

(** A call of one of the two preference setters. *)
Inductive setting :=
  | SetProfessorPreferences (professor : string) (preferences : list Slot)
  | SetGroupPreferences (group : string) (preferences : list Slot).

Definition apply_setting (s : setting) : M unit :=
  match s with
  | SetProfessorPreferences p prefs => set_professor_preferences p prefs
  | SetGroupPreferences g prefs => set_group_preferences g prefs
  end.

(** Construction, any number of setter calls, then [generate_schedule()]:
    the world at the end (or at the exception that ended it). *)
Definition session (order : SetOrder) (cs : list Class)
    (profs grps : list string) (slots : list Slot) (rms : list string)
    (room_capacities : option (gmap string Z)) (settings : list setting)
    : World :=
  ((for_each apply_setting settings;; generate_schedule order)
     (fresh (init cs profs grps slots rms room_capacities))).2.

(** ** Occupancy records and the calls that created them *)

(** The occupancy record of an owner at a slot, if any. *)
Definition prof_record (m : TimetableManager) (p : string) (t : Slot)
    : option ProfEntry :=
  professor_schedule m !! p ≫= λ sched, sched !! t.

Definition group_record (m : TimetableManager) (g : string) (t : Slot)
    : option GroupEntry :=
  group_schedule m !! g ≫= λ sched, sched !! t.

(** The (owner, slot) pairs a call of [assign_schedule] writes to. *)
Definition prof_key (b : Booking) : string * Slot :=
  (cls_professor (bk_class b), bk_slot b).

Definition group_key (b : Booking) : string * Slot :=
  (cls_group (bk_class b), bk_slot b).

(** No double-booking: no two calls of [assign_schedule] wrote to the same
    (professor, slot) or to the same (group, slot), and the schedules hold
    exactly the records those calls stored, none overwritten. *)
Record no_double_booking (w : World) : Prop := {
  ndb_prof_keys : NoDup (prof_key <$> journal w);
  ndb_group_keys : NoDup (group_key <$> journal w);
  ndb_prof_records : ∀ p t e,
    prof_record (mgr w) p t = Some e ↔
    ∃ b, b ∈ journal w ∧ prof_key b = (p, t) ∧
         e = prof_entry (bk_class b) (bk_room b);
  ndb_group_records : ∀ g t e,
    group_record (mgr w) g t = Some e ↔
    ∃ b, b ∈ journal w ∧ group_key b = (g, t) ∧
         e = group_entry (bk_class b) (bk_room b)
}.

(** What it takes for the scheduling loops to keep a property: guarded calls
    of [assign_schedule] keep it, and it does not look at the output. *)
Record schedule_invariant (I : World → Prop) : Prop := {
  inv_assign : ∀ cls t r w,
    I w → valid (mgr w) cls t r = Return true →
    I (assign_schedule cls t r w).2;
  inv_print : ∀ lines w, I w → I (printed lines w)
}.

(** Every call of [assign_schedule] so far was for a room that fits the size
    registered under the class's name. *)
Definition fits_registered_size (m0 : TimetableManager) (w : World) : Prop :=
  class_sizes (mgr w) = class_sizes m0 ∧
  room_capacity (mgr w) = room_capacity m0 ∧
  ∀ b, b ∈ journal w →
    ∃ class_size capacity,
      class_sizes m0 !! cls_name (bk_class b) = Some class_size ∧
      room_capacity m0 !! bk_room b = Some capacity ∧
      (class_size ≤ capacity)%Z.

(** The scheduling loops never touch the preferences. *)
Definition same_preferences (w0 w : World) : Prop :=
  professor_preferences (mgr w) = professor_preferences (mgr w0) ∧
  group_preferences (mgr w) = group_preferences (mgr w0).

(** ** What never changes, and what only grows *)

(** [later w w']: [w'] has the inputs of [w], preferences and schedules for
    the same owners, and an occupancy record wherever [w] has one. *)
Record later (w w' : World) : Prop := {
  later_classes : classes (mgr w') = classes (mgr w);
  later_professors : professors (mgr w') = professors (mgr w);
  later_groups : groups (mgr w') = groups (mgr w);
  later_time_slots : time_slots (mgr w') = time_slots (mgr w);
  later_rooms : rooms (mgr w') = rooms (mgr w);
  later_room_capacity : room_capacity (mgr w') = room_capacity (mgr w);
  later_class_sizes : class_sizes (mgr w') = class_sizes (mgr w);
  later_professor_preferences :
    dom (professor_preferences (mgr w')) = dom (professor_preferences (mgr w));
  later_group_preferences :
    dom (group_preferences (mgr w')) = dom (group_preferences (mgr w));
  later_professor_schedule :
    dom (professor_schedule (mgr w')) = dom (professor_schedule (mgr w));
  later_group_schedule :
    dom (group_schedule (mgr w')) = dom (group_schedule (mgr w));
  later_prof_records : ∀ p t,
    is_Some (prof_record (mgr w) p t) → is_Some (prof_record (mgr w') p t);
  later_group_records : ∀ g t,
    is_Some (group_record (mgr w) g t) → is_Some (group_record (mgr w') g t)
}.

(** The preference dicts have one key per known professor and group. *)
Definition keys_match_universe (m : TimetableManager) : Prop :=
  dom (professor_preferences m) = list_to_set (professors m) ∧
  dom (group_preferences m) = list_to_set (groups m).

(** ** Feasibility and preferences *)

(** The manager has a size for the class's name and a schedule for its
    professor and for its group. *)
Definition knows (m : TimetableManager) (cls : Class) : Prop :=
  is_Some (class_sizes m !! cls_name cls) ∧
  is_Some (professor_schedule m !! cls_professor cls) ∧
  is_Some (group_schedule m !! cls_group cls).

(** Every room of the room list has a capacity. *)
Definition rooms_covered (m : TimetableManager) : Prop :=
  Forall (λ room, is_Some (room_capacity m !! room)) (rooms m).

#[global] Instance rooms_covered_dec m : Decision (rooms_covered m).
Proof. unfold rooms_covered. apply _. Defined.

(** The slots both the professor and the group of the class prefer. *)
Definition common_preference (m : TimetableManager) (cls : Class)
    (t : Slot) : Prop :=
  t ∈ default [] (professor_preferences m !! cls_professor cls) ∧
  t ∈ default [] (group_preferences m !! cls_group cls).

(** The class has a common preferred slot that is feasible right now. *)
Definition has_feasible_common_preference (w : World) (cls : Class) : Prop :=
  ∃ s r, common_preference (mgr w) cls s ∧ r ∈ rooms (mgr w) ∧
         (is_valid cls s r w).1 = Return true.

(** Processing the class commits it, by one call of [assign_schedule], to a
    common preferred slot and an admissible room. *)
Definition committed_to_common_preference (order : SetOrder) (w : World)
    (cls : Class) : Prop :=
  ∃ t room, common_preference (mgr w) cls t ∧ room ∈ rooms (mgr w) ∧
    (is_valid cls t room w).1 = Return true ∧
    schedule_class order cls w =
      (Return tt, (assign_schedule cls t room w).2) ∧
    journal (schedule_class order cls w).2 =
      journal w ++ [{| bk_class := cls; bk_slot := t; bk_room := room |}].

(** Preference priority, as the specification words it. *)
Definition preference_priority (order : SetOrder) (w : World) (cls : Class)
    : Prop :=
  has_feasible_common_preference w cls →
  committed_to_common_preference order w cls.

(** At most one slot is preferred by both the professor and the group. *)
Definition small_intersection (m : TimetableManager) (cls : Class) : Prop :=
  length (first_list_intersection
            (default [] (professor_preferences m !! cls_professor cls))
            (default [] (group_preferences m !! cls_group cls))) ≤ 1.

#[global] Instance small_intersection_dec m cls :
  Decision (small_intersection m cls).
Proof. unfold small_intersection. apply _. Defined.

(** ** The conditions of the diagnostics *)

(** The three conditions of the specification. *)
Definition professor_exhausted (m : TimetableManager) (p : string) : Prop :=
  Forall (λ t, is_Some (prof_record m p t)) (time_slots m).

Definition group_exhausted (m : TimetableManager) (g : string) : Prop :=
  Forall (λ t, is_Some (group_record m g t)) (time_slots m).

Definition exceeds (class_size : Z) (capacity : option Z) : Prop :=
  match capacity with
  | Some c => (class_size > c)%Z
  | None => False
  end.

#[global] Instance exceeds_dec class_size capacity :
  Decision (exceeds class_size capacity).
Proof. destruct capacity; simpl; apply _. Defined.

Definition no_room_fits (m : TimetableManager) (class_size : Z) : Prop :=
  Forall (λ room, exceeds class_size (room_capacity m !! room)) (rooms m).

(** The reasons of the conditions that hold, in the order professor, group,
    room. *)
Definition expected_issues (m : TimetableManager) (cls : Class)
    (class_size : Z) : list string :=
  (if bool_decide (professor_exhausted m (cls_professor cls))
   then [professor_issue (cls_professor cls)] else [])
  ++ (if bool_decide (group_exhausted m (cls_group cls))
      then [group_issue (cls_group cls)] else [])
  ++ (if bool_decide (no_room_fits m class_size)
      then [room_issue (cls_name cls) class_size] else []).

(** ** The reference scenario *)

(** How many of the Chemistry sections got a slot. *)
Definition chemistry_seated (w : World) : nat :=
  length (filter (λ b, bk_class b = Example.Chemistry) (journal w)).

(** The expected outcome, as the specification states it. *)
Definition reference_outcome (order : SetOrder) : Prop :=
  let w := (Example.run order).2 in
  (∃ room capacity,
     {| bk_class := Example.Math; bk_slot := Example.Mon9; bk_room := room |}
       ∈ journal w ∧
     room_capacity (mgr w) !! room = Some capacity ∧ (25 ≤ capacity)%Z) ∧
  chemistry_seated w ≤ 2 ∧
  (∃ line, line ∈ stdout w ∧
     (line = "- " +:+ professor_issue "Prof. C" ∨
      line = "- " +:+ room_issue "Chemistry" 35%Z)).

(** ** First fit, and repeated use of a manager *)

(** [(t, r)] is the first feasible pair: [t] is the first candidate slot
    that has an admissible room, and [r] the first admissible room at [t],
    in the order of the room list. *)
Definition first_feasible (m : TimetableManager) (cls : Class)
    (candidates : list Slot) (t : Slot) (r : string) : Prop :=
  ∃ pre post rpre rpost,
    candidates = pre ++ t :: post ∧
    rooms m = rpre ++ r :: rpost ∧
    (∀ t' r', t' ∈ pre → r' ∈ rooms m → valid m cls t' r' = Return false) ∧
    (∀ r', r' ∈ rpre → valid m cls t r' = Return false) ∧
    valid m cls t r = Return true.

(** The candidate slots of a class: [preferred_slots + self.time_slots]. *)
Definition candidate_slots (order : SetOrder) (m : TimetableManager)
    (cls : Class) : list Slot :=
  intersection_list order
    (default [] (professor_preferences m !! cls_professor cls))
    (default [] (group_preferences m !! cls_group cls))
  ++ time_slots m.

(** What a client does with a manager between construction and display: it
    sets preferences and runs the scheduler, in any order, any number of
    times. *)
Inductive step :=
  | Configure (s : setting)
  | Run.

Definition apply_step (order : SetOrder) (s : step) : M unit :=
  match s with
  | Configure s => apply_setting s
  | Run => generate_schedule order
  end.

(** Existing records stay as they are. *)
Definition keeps_records (w0 w : World) : Prop :=
  (∀ p t e, prof_record (mgr w0) p t = Some e →
            prof_record (mgr w) p t = Some e) ∧
  (∀ g t e, group_record (mgr w0) g t = Some e →
            group_record (mgr w) g t = Some e).

(** ** What a preference setter leaves alone *)

(** [w'] has the inputs, the size and capacity tables, both schedules, the
    output and the call journal of [w]: the two worlds differ at most in
    their preference dicts. *)
Definition same_but_preferences (w w' : World) : Prop :=
  classes (mgr w') = classes (mgr w) ∧
  professors (mgr w') = professors (mgr w) ∧
  groups (mgr w') = groups (mgr w) ∧
  time_slots (mgr w') = time_slots (mgr w) ∧
  rooms (mgr w') = rooms (mgr w) ∧
  room_capacity (mgr w') = room_capacity (mgr w) ∧
  class_sizes (mgr w') = class_sizes (mgr w) ∧
  professor_schedule (mgr w') = professor_schedule (mgr w) ∧
  group_schedule (mgr w') = group_schedule (mgr w) ∧
  stdout w' = stdout w ∧
  journal w' = journal w.

(** ** Sessions that share a name *)

(** The last class of the list bearing the name. *)
Definition last_named (name : string) (cs : list Class) : option Class :=
  last (filter (λ c, cls_name c = name) cs).

(** What [is_valid] answers when it compares [class_size] with the room's
    capacity: both owners must be free at the slot, and the size must fit. *)
Definition verdict_for_size (class_size : Z) (psched : gmap Slot ProfEntry)
    (gsched : gmap Slot GroupEntry) (t : Slot) (capacity : Z) : bool :=
  negb (slot_in psched t) && negb (slot_in gsched t)
  && bool_decide (class_size ≤ capacity)%Z.

(** The consequence as the specification words it: of any two sessions of
    one name that declare different sizes, the earlier one is checked
    against the size of the later one, that is, the size registered for it
    is the later one's and [is_valid] compares that size with the room's
    capacity. *)
Definition checked_against_later_session (cs : list Class)
    (profs grps : list string) (slots : list Slot) (rms : list string)
    (room_capacities : option (gmap string Z)) : Prop :=
  let m := init cs profs grps slots rms room_capacities in
  ∀ before earlier between later_one after,
    cs = before ++ earlier :: between ++ later_one :: after →
    cls_name earlier = cls_name later_one →
    size_or_default earlier ≠ size_or_default later_one →
    class_sizes m !! cls_name earlier = Some (size_or_default later_one) ∧
    ∀ t r psched gsched capacity,
      professor_schedule m !! cls_professor earlier = Some psched →
      group_schedule m !! cls_group earlier = Some gsched →
      room_capacity m !! r = Some capacity →
      valid m earlier t r =
        Return (verdict_for_size (size_or_default later_one)
                  psched gsched t capacity).

(** * Properties *)

(** ** Running monadic code *)

Lemma run_bind {A B} (c : M A) (f : A → M B) (w : World) :
  (c ≫= f) w =
  match c w with
  | (Return a, w') => f a w'
  | (Raise e, w') => (Raise e, w')
  end.
Proof. reflexivity. Qed.

Lemma run_ret {A} (a : A) (w : World) : (mret a : M A) w = (Return a, w).
Proof. reflexivity. Qed.

Lemma run_gets {A} (f : TimetableManager → A) (w : World) :
  gets f w = (Return (f (mgr w)), w).
Proof. reflexivity. Qed.

Lemma run_self_getitem {V} (field : TimetableManager → gmap string V) k w :
  self_getitem field k w =
  match field (mgr w) !! k with
  | Some v => (Return v, w)
  | None => (Raise (KeyError k), w)
  end.
Proof.
  unfold self_getitem, getitem. rewrite run_bind, run_gets.
  by destruct (field (mgr w) !! k).
Qed.

Lemma read_only_ret {A} (a : A) : read_only (mret a : M A).
Proof. by intros w. Qed.

Lemma read_only_gets {A} (f : TimetableManager → A) : read_only (gets f).
Proof. by intros w. Qed.

Lemma read_only_self_getitem {V} (field : TimetableManager → gmap string V) k :
  read_only (self_getitem field k).
Proof. intros w. rewrite run_self_getitem. by destruct (field (mgr w) !! k). Qed.

Lemma read_only_bind {A B} (c : M A) (f : A → M B) :
  read_only c → (∀ a, read_only (f a)) → read_only (c ≫= f).
Proof.
  intros Hc Hf w. rewrite run_bind. specialize (Hc w).
  destruct (c w) as [[a|e] w']; simpl in *; subst; [apply Hf | done].
Qed.

Lemma read_only_if {A} (b : bool) (c1 c2 : M A) :
  read_only c1 → read_only c2 → read_only (if b then c1 else c2).
Proof. by destruct b. Qed.

Lemma read_only_all_of {A} (p : A → M bool) (l : list A) :
  (∀ x, read_only (p x)) → read_only (all_of p l).
Proof.
  intros Hp. induction l as [|x l IH]; simpl.
  - apply read_only_ret.
  - apply read_only_bind; [apply Hp|].
    intros b. apply read_only_if; [apply IH | apply read_only_ret].
Qed.

Ltac solve_read_only :=
  cbv zeta;
  repeat first
    [ apply read_only_ret | apply read_only_gets
    | apply read_only_self_getitem | apply read_only_if
    | apply read_only_all_of; intros ?
    | apply read_only_bind; [|intros ?] ].

(** ** Dict comprehensions keep the last value of a key *)

Lemma dict_comp_snoc {A V} (key : A → string) (value : A → V) l x :
  dict_comp key value (l ++ [x]) = <[key x := value x]> (dict_comp key value l).
Proof. unfold dict_comp. by rewrite foldl_app. Qed.

Lemma dict_comp_lookup {A V} (key : A → string) (value : A → V) l k :
  dict_comp key value l !! k = value <$> last (filter (λ x, key x = k) l).
Proof.
  induction l as [|x l IH] using rev_ind; [done|].
  rewrite dict_comp_snoc, filter_app, lookup_insert.
  rewrite filter_cons, filter_nil. repeat case_decide; try done.
  - by rewrite last_snoc.
  - by rewrite app_nil_r.
Qed.

Lemma dict_comp_const_lookup {V} (v : V) (l : list string) k :
  dict_comp id (λ _, v) l !! k = if decide (k ∈ l) then Some v else None.
Proof.
  rewrite dict_comp_lookup. case_decide as Hk.
  - destruct (last (filter (λ x, id x = k) l)) eqn:E; [done|].
    apply last_None in E. exfalso.
    assert (k ∈ filter (λ x : string, id x = k) l) as Hin
      by by apply list_elem_of_filter.
    rewrite E in Hin. by apply not_elem_of_nil in Hin.
  - destruct (last (filter (λ x, id x = k) l)) eqn:E; [|done].
    exfalso. apply Hk. apply last_Some_elem_of in E.
    apply list_elem_of_filter in E as [<- ?]. done.
Qed.

(** ** What the methods compute *)

Lemma is_valid_read_only cls t r : read_only (is_valid cls t r).
Proof. unfold is_valid. solve_read_only. Qed.

Lemma valid_unfold m cls t r :
  valid m cls t r =
  match class_sizes m !! cls_name cls with
  | None => Raise (KeyError (cls_name cls))
  | Some class_size =>
    match professor_schedule m !! cls_professor cls with
    | None => Raise (KeyError (cls_professor cls))
    | Some psched =>
      if slot_in psched t then Return false else
      match group_schedule m !! cls_group cls with
      | None => Raise (KeyError (cls_group cls))
      | Some gsched =>
        if slot_in gsched t then Return false else
        match room_capacity m !! r with
        | None => Raise (KeyError r)
        | Some capacity => Return (bool_decide (class_size ≤ capacity)%Z)
        end
      end
    end
  end.
Proof.
  unfold valid, is_valid.
  rewrite run_bind, run_self_getitem. simpl.
  destruct (class_sizes m !! cls_name cls); [|done].
  rewrite run_bind, run_self_getitem. simpl.
  destruct (professor_schedule m !! cls_professor cls) as [ps|]; [|done].
  destruct (slot_in ps t); [done|].
  rewrite run_bind, run_self_getitem. simpl.
  destruct (group_schedule m !! cls_group cls) as [gs|]; [|done].
  destruct (slot_in gs t); [done|].
  rewrite run_bind, run_self_getitem. simpl.
  by destruct (room_capacity m !! r).
Qed.

Lemma is_valid_outcome cls t r w :
  (is_valid cls t r w).1 = valid (mgr w) cls t r.
Proof.
  rewrite valid_unfold. unfold is_valid.
  rewrite run_bind, run_self_getitem.
  destruct (class_sizes (mgr w) !! cls_name cls); [|done].
  rewrite run_bind, run_self_getitem.
  destruct (professor_schedule (mgr w) !! cls_professor cls) as [ps|]; [|done].
  destruct (slot_in ps t); [done|].
  rewrite run_bind, run_self_getitem.
  destruct (group_schedule (mgr w) !! cls_group cls) as [gs|]; [|done].
  destruct (slot_in gs t); [done|].
  rewrite run_bind, run_self_getitem.
  by destruct (room_capacity (mgr w) !! r).
Qed.

Lemma is_valid_run cls t r w :
  is_valid cls t r w = (valid (mgr w) cls t r, w).
Proof.
  pose proof (is_valid_outcome cls t r w) as Ho.
  pose proof (is_valid_read_only cls t r w) as Hw.
  destruct (is_valid cls t r w); simpl in *. by subst.
Qed.

Lemma slot_in_false {V} (s : gmap Slot V) t : slot_in s t = false ↔ s !! t = None.
Proof. unfold slot_in. destruct (s !! t); naive_solver. Qed.

Lemma slot_in_true {V} (s : gmap Slot V) t : slot_in s t = true ↔ is_Some (s !! t).
Proof.
  unfold slot_in. destruct (s !! t); split; done.
Qed.

(** [is_valid] answers [True] exactly when the class, its professor, its
    group and the room are known, both owners are free and the size
    registered under the class's name fits the room. *)
Lemma valid_true m cls t r :
  valid m cls t r = Return true ↔
  ∃ class_size psched gsched capacity,
    class_sizes m !! cls_name cls = Some class_size ∧
    professor_schedule m !! cls_professor cls = Some psched ∧
    psched !! t = None ∧
    group_schedule m !! cls_group cls = Some gsched ∧
    gsched !! t = None ∧
    room_capacity m !! r = Some capacity ∧
    (class_size ≤ capacity)%Z.
Proof.
  rewrite valid_unfold. split.
  - destruct (class_sizes m !! cls_name cls) as [sz|]; [|done].
    destruct (professor_schedule m !! cls_professor cls) as [ps|]; [|done].
    destruct (slot_in ps t) eqn:Hps; [done|].
    destruct (group_schedule m !! cls_group cls) as [gs|]; [|done].
    destruct (slot_in gs t) eqn:Hgs; [done|].
    destruct (room_capacity m !! r) as [cap|]; [|done].
    intros [= Hle%bool_decide_eq_true].
    exists sz, ps, gs, cap. by rewrite <- !slot_in_false.
  - intros (sz & ps & gs & cap & -> & -> & Hps & -> & Hgs & -> & Hle).
    apply slot_in_false in Hps, Hgs. rewrite Hps, Hgs.
    by rewrite bool_decide_eq_true_2.
Qed.

(** [assign_schedule] by cases: an unknown professor raises before any
    record is stored, an unknown group after the professor's record was. *)
Lemma assign_schedule_cases other t r w :
  assign_schedule other t r w =
  let b := {| bk_class := other; bk_slot := t; bk_room := r |} in
  match professor_schedule (mgr w) !! cls_professor other with
  | None =>
      (Raise (KeyError (cls_professor other)),
       {| mgr := mgr w; stdout := stdout w; journal := journal w ++ [b] |})
  | Some ps =>
      match group_schedule (mgr w) !! cls_group other with
      | None =>
          (Raise (KeyError (cls_group other)),
           {| mgr := with_professor_schedule
                       (<[cls_professor other :=
                            <[t := prof_entry other r]> ps]>
                          (professor_schedule (mgr w))) (mgr w);
              stdout := stdout w; journal := journal w ++ [b] |})
      | Some gs => (Return tt, booked other t r ps gs w)
      end
  end.
Proof.
  unfold assign_schedule. cbv zeta.
  rewrite run_bind. unfold note at 1.
  rewrite run_bind, run_self_getitem. simpl mgr.
  destruct (professor_schedule (mgr w) !! cls_professor other) as [ps|];
    [|done].
  rewrite run_bind. unfold modify at 1.
  rewrite run_bind, run_self_getitem. simpl mgr. simpl group_schedule.
  by destruct (group_schedule (mgr w) !! cls_group other) as [gs|].
Qed.

Lemma assign_schedule_run cls t r w psched gsched :
  professor_schedule (mgr w) !! cls_professor cls = Some psched →
  group_schedule (mgr w) !! cls_group cls = Some gsched →
  assign_schedule cls t r w = (Return tt, booked cls t r psched gsched w).
Proof.
  intros Hp Hg. by rewrite assign_schedule_cases, Hp, Hg.
Qed.

Lemma printed_nil w : printed [] w = w.
Proof. destruct w. unfold printed. simpl. by rewrite app_nil_r. Qed.

Lemma for_each_print (f : string → string) (l : list string) w :
  for_each (λ x, print (f x)) l w = (Return tt, printed (f <$> l) w).
Proof.
  revert w. induction l as [|x l IH]; intros w; simpl.
  - by rewrite run_ret, printed_nil.
  - rewrite run_bind. simpl. rewrite IH. unfold printed. simpl.
    by rewrite <- app_assoc.
Qed.

Lemma feedback_issues_read_only cls : read_only (feedback_issues cls).
Proof. unfold feedback_issues. solve_read_only. Qed.

Lemma provide_feedback_run cls w :
  provide_feedback cls w =
  match (feedback_issues cls w).1 with
  | Return issues => (Return tt, printed (report cls issues) w)
  | Raise e => (Raise e, w)
  end.
Proof.
  unfold provide_feedback. rewrite run_bind.
  pose proof (feedback_issues_read_only cls w) as Hro.
  destruct (feedback_issues cls w) as [[issues|e] w']; simpl in *; subst;
    [|done].
  destruct issues as [|i issues].
  - by rewrite run_ret, printed_nil.
  - rewrite run_bind. unfold print at 1.
    rewrite (for_each_print (λ issue, "- " +:+ issue)).
    unfold printed, report. simpl. by rewrite <- app_assoc.
Qed.

(** ** The embedding at work *)

(** The messages are the f-strings of the source. *)
Lemma room_issue_text :
  room_issue "Chemistry" 35%Z
  = "No rooms with sufficient capacity for class Chemistry (size: 35).".
Proof. reflexivity. Qed.

Lemma feedback_header_text :
  feedback_header Example.Math
  = "Unable to assign class Math for group Group 1 by professor Prof. A. Reasons:".
Proof. reflexivity. Qed.

(** A repeated key of a dict comprehension keeps its last value. *)
Lemma class_sizes_shared_name :
  class_sizes (mgr SharedName.world) !! "Algebra" = Some 10%Z.
Proof. reflexivity. Qed.

(** The iteration order of sets is a real parameter: with two common
    preferred slots, both feasible, two orders commit the class to different
    slots. *)
Lemma iteration_order_matters :
  let w :=
    ((set_professor_preferences "Prof. A" [Example.Mon9; Example.Mon10];;
      set_group_preferences "Group 1" [Example.Mon9; Example.Mon10])
       (fresh Example.timetable_manager)).2 in
  bk_slot <$> journal (schedule_class first_list_order Example.Math w).2
    = [Example.Mon9] ∧
  bk_slot <$> journal (schedule_class second_list_rev_order Example.Math w).2
    = [Example.Mon10].
Proof. by vm_compute. Qed.

(** ** Guarded assignments keep the schedules consistent *)

Lemma booked_prof_record cls t r ps gs w p t' :
  professor_schedule (mgr w) !! cls_professor cls = Some ps →
  prof_record (mgr (booked cls t r ps gs w)) p t' =
  if decide ((cls_professor cls, t) = (p, t')) then Some (prof_entry cls r)
  else prof_record (mgr w) p t'.
Proof.
  intros Hps. unfold prof_record, booked. simpl.
  destruct (decide (cls_professor cls = p)) as [<-|Hp].
  - rewrite lookup_insert_eq, Hps. simpl.
    destruct (decide (t = t')) as [<-|Ht].
    + rewrite lookup_insert_eq. by rewrite decide_True.
    + rewrite lookup_insert_ne by done. rewrite decide_False; [done|congruence].
  - rewrite lookup_insert_ne by done. rewrite decide_False; [done|congruence].
Qed.

Lemma booked_group_record cls t r ps gs w g t' :
  group_schedule (mgr w) !! cls_group cls = Some gs →
  group_record (mgr (booked cls t r ps gs w)) g t' =
  if decide ((cls_group cls, t) = (g, t')) then Some (group_entry cls r)
  else group_record (mgr w) g t'.
Proof.
  intros Hgs. unfold group_record, booked. simpl.
  destruct (decide (cls_group cls = g)) as [<-|Hg].
  - rewrite lookup_insert_eq, Hgs. simpl.
    destruct (decide (t = t')) as [<-|Ht].
    + rewrite lookup_insert_eq. by rewrite decide_True.
    + rewrite lookup_insert_ne by done. rewrite decide_False; [done|congruence].
  - rewrite lookup_insert_ne by done. rewrite decide_False; [done|congruence].
Qed.

(** A call of [assign_schedule] guarded by [is_valid] keeps the invariant. *)
Lemma booked_no_double_booking cls t r w :
  no_double_booking w →
  valid (mgr w) cls t r = Return true →
  no_double_booking (assign_schedule cls t r w).2.
Proof.
  intros [Hpk Hgk Hpr Hgr] Hv.
  apply valid_true in Hv
    as (sz & ps & gs & cap & _ & Hps & Hpt & Hgs & Hgt & _ & _).
  rewrite (assign_schedule_run _ _ _ _ ps gs) by done. simpl.
  set (b := {| bk_class := cls; bk_slot := t; bk_room := r |}).
  assert (prof_record (mgr w) (cls_professor cls) t = None) as Hpfree.
  { unfold prof_record. by rewrite Hps. }
  assert (group_record (mgr w) (cls_group cls) t = None) as Hgfree.
  { unfold group_record. by rewrite Hgs. }
  split.
  - simpl. rewrite fmap_app. apply NoDup_app. split_and!; [done| |].
    + intros k Hk [->|[]%elem_of_nil]%elem_of_cons.
      apply list_elem_of_fmap in Hk as (b' & Hkey & Hb').
      assert (is_Some (prof_record (mgr w) (cls_professor cls) t)) as [? HS].
      { eexists. apply Hpr. exists b'. by split_and!. }
      congruence.
    + apply NoDup_singleton.
  - simpl. rewrite fmap_app. apply NoDup_app. split_and!; [done| |].
    + intros k Hk [->|[]%elem_of_nil]%elem_of_cons.
      apply list_elem_of_fmap in Hk as (b' & Hkey & Hb').
      assert (is_Some (group_record (mgr w) (cls_group cls) t)) as [? HS].
      { eexists. apply Hgr. exists b'. by split_and!. }
      congruence.
    + apply NoDup_singleton.
  - intros p t' e. rewrite booked_prof_record by done. simpl.
    case_decide as Hk.
    + split.
      * intros [= <-]. exists b. split_and!; [|done..].
        apply elem_of_app. right. by apply list_elem_of_singleton.
      * intros (b' & [Hb'|Hb']%elem_of_app & Hkey & ->).
        -- assert (is_Some (prof_record (mgr w) (cls_professor cls) t))
             as [? HS]; [|congruence].
           eexists. apply Hpr. exists b'. split_and!; [done| |done].
           congruence.
        -- by apply list_elem_of_singleton in Hb' as ->.
    + rewrite Hpr. split.
      * intros (b' & Hb' & Hkey & ->). exists b'. split_and!; [|done..].
        apply elem_of_app. by left.
      * intros (b' & [Hb'|Hb']%elem_of_app & Hkey & ->).
        -- by exists b'.
        -- apply list_elem_of_singleton in Hb' as ->. done.
  - intros g t' e. rewrite booked_group_record by done. simpl.
    case_decide as Hk.
    + split.
      * intros [= <-]. exists b. split_and!; [|done..].
        apply elem_of_app. right. by apply list_elem_of_singleton.
      * intros (b' & [Hb'|Hb']%elem_of_app & Hkey & ->).
        -- assert (is_Some (group_record (mgr w) (cls_group cls) t))
             as [? HS]; [|congruence].
           eexists. apply Hgr. exists b'. split_and!; [done| |done].
           congruence.
        -- by apply list_elem_of_singleton in Hb' as ->.
    + rewrite Hgr. split.
      * intros (b' & Hb' & Hkey & ->). exists b'. split_and!; [|done..].
        apply elem_of_app. by left.
      * intros (b' & [Hb'|Hb']%elem_of_app & Hkey & ->).
        -- by exists b'.
        -- apply list_elem_of_singleton in Hb' as ->. done.
Qed.

(** ** Invariants of a run *)

Lemma preserves_bind (I : World → Prop) {A B} (c : M A) (f : A → M B) :
  preserves I c → (∀ a, preserves I (f a)) → preserves I (c ≫= f).
Proof.
  intros Hc Hf w Hw. rewrite run_bind. specialize (Hc w Hw).
  destruct (c w) as [[a|e] w']; simpl in *; [by apply Hf | done].
Qed.

Lemma preserves_read_only (I : World → Prop) {A} (c : M A) :
  read_only c → preserves I c.
Proof. intros Hc w Hw. by rewrite Hc. Qed.

Lemma preserves_for_each (I : World → Prop) {A} (body : A → M unit) l :
  (∀ x, preserves I (body x)) → preserves I (for_each body l).
Proof.
  intros Hbody. induction l as [|x l IH]; simpl.
  - by apply preserves_read_only, read_only_ret.
  - apply preserves_bind; [apply Hbody | intros _; apply IH].
Qed.

Lemma preserves_if (I : World → Prop) {A} (b : bool) (c1 c2 : M A) :
  preserves I c1 → preserves I c2 → preserves I (if b then c1 else c2).
Proof. by destruct b. Qed.

(** The invariant only looks at the schedules and the journal. *)
Lemma no_double_booking_ext w w' :
  professor_schedule (mgr w') = professor_schedule (mgr w) →
  group_schedule (mgr w') = group_schedule (mgr w) →
  journal w' = journal w →
  no_double_booking w → no_double_booking w'.
Proof.
  intros Hp Hg Hj [Hpk Hgk Hpr Hgr].
  split; unfold prof_record, group_record in *; rewrite ?Hp, ?Hg, ?Hj; done.
Qed.

Lemma set_professor_preferences_run p prefs w :
  set_professor_preferences p prefs w =
  (Return tt,
   if bool_decide (is_Some (professor_preferences (mgr w) !! p))
   then {| mgr := with_professor_preferences
                    (<[p := prefs]> (professor_preferences (mgr w))) (mgr w);
           stdout := stdout w; journal := journal w |}
   else w).
Proof.
  unfold set_professor_preferences. rewrite run_bind, run_gets.
  by destruct (bool_decide _).
Qed.

Lemma set_group_preferences_run g prefs w :
  set_group_preferences g prefs w =
  (Return tt,
   if bool_decide (is_Some (group_preferences (mgr w) !! g))
   then {| mgr := with_group_preferences
                    (<[g := prefs]> (group_preferences (mgr w))) (mgr w);
           stdout := stdout w; journal := journal w |}
   else w).
Proof.
  unfold set_group_preferences. rewrite run_bind, run_gets.
  by destruct (bool_decide _).
Qed.

Lemma try_rooms_preserves I cls t rms :
  schedule_invariant I → preserves I (try_rooms cls t rms).
Proof.
  intros [Hassign _].
  induction rms as [|room rms IH]; intros w Hw; simpl; [done|].
  rewrite run_bind, is_valid_run.
  destruct (valid (mgr w) cls t room) as [[|]|e] eqn:Hv; [| by apply IH | done].
  rewrite run_bind.
  pose proof (Hassign cls t room w Hw Hv) as Hb.
  by destruct (assign_schedule cls t room w) as [[[]|e] w'].
Qed.

Lemma try_slots_preserves I cls candidates :
  schedule_invariant I → preserves I (try_slots cls candidates).
Proof.
  intros HI. induction candidates as [|t rest IH]; simpl.
  - by apply preserves_read_only, read_only_ret.
  - apply preserves_bind; [apply preserves_read_only, read_only_gets|].
    intros rms. apply preserves_bind; [by apply try_rooms_preserves|].
    intros assigned. apply preserves_if; [|done].
    apply preserves_read_only, read_only_ret.
Qed.

Lemma provide_feedback_preserves I cls :
  schedule_invariant I → preserves I (provide_feedback cls).
Proof.
  intros [_ Hprint] w Hw. rewrite provide_feedback_run.
  destruct (feedback_issues cls w).1; simpl; [by apply Hprint | done].
Qed.

Lemma schedule_class_preserves I order cls :
  schedule_invariant I → preserves I (schedule_class order cls).
Proof.
  intros HI. unfold schedule_class, get_preferred_slots.
  repeat (apply preserves_bind;
          [by apply preserves_read_only; solve_read_only | intros ?]).
  apply preserves_bind; [by apply try_slots_preserves|].
  intros assigned. apply preserves_if.
  - apply preserves_read_only, read_only_ret.
  - by apply provide_feedback_preserves.
Qed.

Lemma generate_schedule_preserves I order :
  schedule_invariant I → preserves I (generate_schedule order).
Proof.
  intros HI. unfold generate_schedule.
  apply preserves_bind; [apply preserves_read_only, read_only_gets|].
  intros cs. apply preserves_for_each. intros cls.
  by apply schedule_class_preserves.
Qed.

Lemma no_double_booking_invariant : schedule_invariant no_double_booking.
Proof.
  split.
  - intros cls t r w. apply booked_no_double_booking.
  - intros lines w. by apply no_double_booking_ext.
Qed.

Lemma apply_setting_no_double_booking s :
  preserves no_double_booking (apply_setting s).
Proof.
  intros w. destruct s as [p prefs|g prefs]; simpl.
  - rewrite set_professor_preferences_run. simpl.
    destruct (bool_decide _); [|done]. by apply no_double_booking_ext.
  - rewrite set_group_preferences_run. simpl.
    destruct (bool_decide _); [|done]. by apply no_double_booking_ext.
Qed.

Lemma init_prof_record cs profs grps slots rms caps p t :
  prof_record (init cs profs grps slots rms caps) p t = None.
Proof.
  unfold prof_record. simpl. rewrite dict_comp_const_lookup.
  by case_decide.
Qed.

Lemma init_group_record cs profs grps slots rms caps g t :
  group_record (init cs profs grps slots rms caps) g t = None.
Proof.
  unfold group_record. simpl. rewrite dict_comp_const_lookup.
  by case_decide.
Qed.

Lemma fresh_init_no_double_booking cs profs grps slots rms caps :
  no_double_booking (fresh (init cs profs grps slots rms caps)).
Proof.
  split; simpl; try apply NoDup_nil_2.
  - intros p t e. rewrite init_prof_record. split; [done|].
    by intros (b & ?%elem_of_nil & _).
  - intros g t e. rewrite init_group_record. split; [done|].
    by intros (b & ?%elem_of_nil & _).
Qed.

Lemma no_double_booking_distinct_calls w i j b1 b2 :
  no_double_booking w →
  journal w !! i = Some b1 → journal w !! j = Some b2 →
  prof_key b1 = prof_key b2 ∨ group_key b1 = group_key b2 →
  i = j.
Proof.
  intros [Hpk Hgk _ _] Hi Hj [Hkey|Hkey].
  - apply (NoDup_lookup _ i j (prof_key b1) Hpk).
    + by rewrite list_lookup_fmap, Hi.
    + by rewrite list_lookup_fmap, Hj, Hkey.
  - apply (NoDup_lookup _ i j (group_key b1) Hgk).
    + by rewrite list_lookup_fmap, Hi.
    + by rewrite list_lookup_fmap, Hj, Hkey.
Qed.

(** C1. No double-booking: whatever the classes, universes, rooms,
    capacities and preference settings, after [generate_schedule] (started on
    the empty schedules of a new manager) no two calls of [assign_schedule]
    wrote to the same (professor, slot) or to the same (group, slot), and the
    schedules hold exactly one record per call: every call was made for an
    owner pair that was free at that slot, and no record was overwritten.
    This also holds for the state left behind by a run that ended in an
    exception. *)
Theorem generate_schedule_no_double_booking
    (order : SetOrder) (cs : list Class) (profs grps : list string)
    (slots : list Slot) (rms : list string)
    (room_capacities : option (gmap string Z)) (settings : list setting) :
  let w := session order cs profs grps slots rms room_capacities settings in
  no_double_booking w ∧
  ∀ i j b1 b2,
    journal w !! i = Some b1 → journal w !! j = Some b2 →
    prof_key b1 = prof_key b2 ∨ group_key b1 = group_key b2 →
    i = j.
Proof.
  intros w.
  assert (no_double_booking w) as Hw.
  { unfold w, session. apply preserves_bind.
    - apply preserves_for_each, apply_setting_no_double_booking.
    - intros _. apply generate_schedule_preserves, no_double_booking_invariant.
    - apply fresh_init_no_double_booking. }
  split; [done|].
  intros i j b1 b2. by apply no_double_booking_distinct_calls.
Qed.

(** ** The feasibility query is pure *)

(** C8. [is_valid] mutates nothing (neither the schedules, nor the
    preferences, nor any other field, nor the output), also when it raises;
    so a call repeated after any other feasibility query returns the same
    result, and the result is the same in any two states with the same
    manager fields. *)
Theorem is_valid_pure (cls : Class) (t : Slot) (r : string) (w : World) :
  (is_valid cls t r w).2 = w ∧
  (is_valid cls t r (is_valid cls t r w).2).1 = (is_valid cls t r w).1 ∧
  (∀ cls' t' r',
     (is_valid cls t r (is_valid cls' t' r' w).2).1 = (is_valid cls t r w).1) ∧
  (∀ w', mgr w' = mgr w → (is_valid cls t r w').1 = (is_valid cls t r w).1).
Proof.
  split_and!.
  - apply is_valid_read_only.
  - by rewrite is_valid_read_only.
  - intros cls' t' r'. by rewrite is_valid_read_only.
  - intros w' Hm. by rewrite !is_valid_outcome, Hm.
Qed.

(** ** What never changes, and what only grows *)

Lemma later_refl w : later w w.
Proof. by split. Qed.

Lemma later_trans w1 w2 w3 : later w1 w2 → later w2 w3 → later w1 w3.
Proof.
  intros [] []. split; try congruence; eauto.
Qed.

Lemma later_printed lines w : later w (printed lines w).
Proof. by split. Qed.

Lemma dom_insert_known {V} (d : gmap string V) k v :
  is_Some (d !! k) → dom (<[k := v]> d) = dom d.
Proof.
  intros Hk%elem_of_dom. rewrite dom_insert_L.
  apply set_eq. intros x. rewrite elem_of_union, elem_of_singleton.
  split; [by intros [->|?] | by right].
Qed.

Lemma later_booked cls t r ps gs w :
  professor_schedule (mgr w) !! cls_professor cls = Some ps →
  group_schedule (mgr w) !! cls_group cls = Some gs →
  later w (booked cls t r ps gs w).
Proof.
  intros Hps Hgs. split; try done.
  - simpl. by apply dom_insert_known.
  - simpl. by apply dom_insert_known.
  - intros p t' Hrec. rewrite booked_prof_record by done. by case_decide.
  - intros g t' Hrec. rewrite booked_group_record by done. by case_decide.
Qed.

Lemma later_invariant w0 : schedule_invariant (later w0).
Proof.
  split.
  - intros cls t r w Hw Hv.
    apply valid_true in Hv
      as (sz & ps & gs & cap & _ & Hps & _ & Hgs & _ & _ & _).
    rewrite (assign_schedule_run _ _ _ _ ps gs) by done.
    eapply later_trans; [done|]. by apply later_booked.
  - intros lines w Hw. eapply later_trans; [done|]. apply later_printed.
Qed.

Lemma later_apply_setting s w : later w (apply_setting s w).2.
Proof.
  destruct s as [p prefs|g prefs]; simpl.
  - rewrite set_professor_preferences_run. simpl.
    case_bool_decide as Hk; [|apply later_refl].
    split; try done. simpl. by apply dom_insert_known.
  - rewrite set_group_preferences_run. simpl.
    case_bool_decide as Hk; [|apply later_refl].
    split; try done. simpl. by apply dom_insert_known.
Qed.

Lemma later_for_each {A} (body : A → M unit) l w :
  (∀ x w, later w (body x w).2) → later w (for_each body l w).2.
Proof.
  intros Hbody.
  apply (preserves_for_each (later w)); [|apply later_refl].
  intros x w' Hw'. eapply later_trans; [done|]. apply Hbody.
Qed.

Lemma later_schedule_class order cls w :
  later w (schedule_class order cls w).2.
Proof.
  apply (schedule_class_preserves (later w)); [apply later_invariant|].
  apply later_refl.
Qed.

Lemma later_generate_schedule order w : later w (generate_schedule order w).2.
Proof.
  apply (generate_schedule_preserves (later w)); [apply later_invariant|].
  apply later_refl.
Qed.

Lemma later_session order cs profs grps slots rms caps settings :
  later (fresh (init cs profs grps slots rms caps))
        (session order cs profs grps slots rms caps settings).
Proof.
  unfold session. rewrite run_bind.
  pose proof (later_for_each apply_setting settings
                (fresh (init cs profs grps slots rms caps))
                later_apply_setting) as Hset.
  destruct (for_each apply_setting settings _) as [[[]|e] w1]; simpl in *;
    [|done].
  eapply later_trans; [done|]. apply later_generate_schedule.
Qed.

(** A direct call of [assign_schedule], unguarded, may overwrite a record or
    raise half-way, but it removes nothing either. *)
Lemma later_assign_schedule cls t r w : later w (assign_schedule cls t r w).2.
Proof.
  rewrite assign_schedule_cases. cbv zeta.
  destruct (professor_schedule (mgr w) !! cls_professor cls) as [ps|] eqn:Hps;
    [|by split].
  destruct (group_schedule (mgr w) !! cls_group cls) as [gs|] eqn:Hgs.
  - by apply later_booked.
  - split; try done.
    + simpl. by apply dom_insert_known.
    + intros p t'. unfold prof_record. simpl.
      destruct (decide (cls_professor cls = p)) as [<-|Hp].
      * rewrite lookup_insert_eq, Hps. simpl.
        intros Hsome. apply lookup_insert_is_Some.
        destruct (decide (t = t')); auto.
      * by rewrite lookup_insert_ne.
Qed.

Lemma later_provide_feedback cls w : later w (provide_feedback cls w).2.
Proof.
  rewrite provide_feedback_run.
  destruct (feedback_issues cls w).1; [apply later_printed | apply later_refl].
Qed.

Lemma later_is_valid cls t r w : later w (is_valid cls t r w).2.
Proof. rewrite is_valid_read_only. apply later_refl. Qed.

(** ** Preference setters *)

Lemma dom_dict_comp_const {V} (v : V) (l : list string) :
  dom (dict_comp id (λ _, v) l) = list_to_set l.
Proof.
  apply set_eq. intros k.
  rewrite elem_of_dom, dict_comp_const_lookup, elem_of_list_to_set.
  case_decide; split; done.
Qed.

Lemma init_keys_match_universe cs profs grps slots rms caps :
  keys_match_universe (init cs profs grps slots rms caps).
Proof. split; simpl; apply dom_dict_comp_const. Qed.

Lemma later_keys_match_universe w w' :
  later w w' → keys_match_universe (mgr w) → keys_match_universe (mgr w').
Proof.
  intros Hl [Hp Hg]. split.
  - by rewrite (later_professor_preferences _ _ Hl), (later_professors _ _ Hl).
  - by rewrite (later_group_preferences _ _ Hl), (later_groups _ _ Hl).
Qed.

(** Every state of a session has one preference list per known owner. *)
Lemma session_keys_match_universe order cs profs grps slots rms caps settings :
  keys_match_universe
    (mgr (session order cs profs grps slots rms caps settings)).
Proof.
  eapply later_keys_match_universe; [apply later_session|].
  apply init_keys_match_universe.
Qed.

(** C7. In a manager whose preference dicts have the keys of the two
    universes (as after construction and after any method call, none of
    which adds or removes a key), setting preferences for a professor or a
    group outside its universe returns normally and leaves the whole state
    as it was. For a known professor the call returns normally, the
    professor's preference list is the new one afterwards, the list of every
    other professor is the one it was, and the group preferences, the
    schedules, the inputs, the tables of sizes and capacities and the output
    are untouched; symmetrically for a known group. *)
Theorem set_preferences_unknown_is_noop (w : World) :
  keys_match_universe (mgr w) →
  (∀ p prefs, p ∉ professors (mgr w) →
     set_professor_preferences p prefs w = (Return tt, w)) ∧
  (∀ g prefs, g ∉ groups (mgr w) →
     set_group_preferences g prefs w = (Return tt, w)) ∧
  (∀ p prefs, p ∈ professors (mgr w) →
     let w' := (set_professor_preferences p prefs w).2 in
     (set_professor_preferences p prefs w).1 = Return tt ∧
     professor_preferences (mgr w') !! p = Some prefs ∧
     (∀ q, q ≠ p →
        professor_preferences (mgr w') !! q
        = professor_preferences (mgr w) !! q) ∧
     group_preferences (mgr w') = group_preferences (mgr w) ∧
     same_but_preferences w w') ∧
  (∀ g prefs, g ∈ groups (mgr w) →
     let w' := (set_group_preferences g prefs w).2 in
     (set_group_preferences g prefs w).1 = Return tt ∧
     group_preferences (mgr w') !! g = Some prefs ∧
     (∀ h, h ≠ g →
        group_preferences (mgr w') !! h = group_preferences (mgr w) !! h) ∧
     professor_preferences (mgr w') = professor_preferences (mgr w) ∧
     same_but_preferences w w').
Proof.
  intros [Hp Hg].
  assert (∀ p, is_Some (professor_preferences (mgr w) !! p) ↔
               p ∈ professors (mgr w)) as Hp'.
  { intros p. by rewrite <- elem_of_dom, Hp, elem_of_list_to_set. }
  assert (∀ g, is_Some (group_preferences (mgr w) !! g) ↔
               g ∈ groups (mgr w)) as Hg'.
  { intros g. by rewrite <- elem_of_dom, Hg, elem_of_list_to_set. }
  split_and!.
  - intros p prefs Hin. rewrite set_professor_preferences_run.
    rewrite bool_decide_eq_false_2; [done|]. by rewrite Hp'.
  - intros g prefs Hin. rewrite set_group_preferences_run.
    rewrite bool_decide_eq_false_2; [done|]. by rewrite Hg'.
  - intros p prefs Hin w'. unfold w'. rewrite set_professor_preferences_run.
    rewrite bool_decide_eq_true_2 by by rewrite Hp'.
    simpl. split_and!; [done| | |done|by repeat split].
    + apply lookup_insert_eq.
    + intros q Hq. by rewrite lookup_insert_ne.
  - intros g prefs Hin w'. unfold w'. rewrite set_group_preferences_run.
    rewrite bool_decide_eq_true_2 by by rewrite Hg'.
    simpl. split_and!; [done| | |done|by repeat split].
    + apply lookup_insert_eq.
    + intros h Hh. by rewrite lookup_insert_ne.
Qed.

Lemma set_preferences_unknown_is_noop_witness :
  let w := fresh Example.timetable_manager in
  let wp := (set_professor_preferences "Prof. A" [Example.Mon9] w).2 in
  let wg := (set_group_preferences "Group 1" [Example.Mon10] w).2 in
  set_professor_preferences "Prof. Z" [Example.Mon9] w = (Return tt, w) ∧
  set_group_preferences "Group 9" [Example.Mon9] w = (Return tt, w) ∧
  (professor_preferences (mgr wp) !! "Prof. A" = Some [Example.Mon9] ∧
   professor_preferences (mgr wp) !! "Prof. B" = Some [] ∧
   group_preferences (mgr wp) = group_preferences (mgr w) ∧
   same_but_preferences w wp) ∧
  (group_preferences (mgr wg) !! "Group 1" = Some [Example.Mon10] ∧
   group_preferences (mgr wg) !! "Group 2" = Some [] ∧
   professor_preferences (mgr wg) = professor_preferences (mgr w) ∧
   same_but_preferences w wg).
Proof.
  intros w wp wg.
  destruct (set_preferences_unknown_is_noop w) as (Hp & Hg & Hp' & Hg').
  { split; vm_compute; reflexivity. }
  split; [|split; [|split]].
  - apply Hp. compute_done.
  - apply Hg. compute_done.
  - destruct (Hp' "Prof. A" [Example.Mon9]) as (_ & Hnew & Hold & Hgp & Hsame);
      [compute_done|].
    split; [exact Hnew|]. split; [|split; [exact Hgp|exact Hsame]].
    unfold wp. rewrite (Hold "Prof. B"); [reflexivity|discriminate].
  - destruct (Hg' "Group 1" [Example.Mon10]) as (_ & Hnew & Hold & Hpp & Hsame);
      [compute_done|].
    split; [exact Hnew|]. split; [|split; [exact Hpp|exact Hsame]].
    unfold wg. rewrite (Hold "Group 2"); [reflexivity|discriminate].
Defined.

(** ** First fit *)

Lemma valid_knows m cls t r : valid m cls t r = Return true → knows m cls.
Proof.
  intros (sz & ps & gs & cap & Hsz & Hps & _ & Hgs & _)%valid_true.
  unfold knows. rewrite Hsz, Hps, Hgs. by split_and!.
Qed.

Lemma valid_returns m cls t r :
  knows m cls → is_Some (room_capacity m !! r) →
  ∃ b, valid m cls t r = Return b.
Proof.
  intros ([sz Hsz] & [ps Hps] & [gs Hgs]) [cap Hcap].
  rewrite valid_unfold, Hsz, Hps, Hgs, Hcap.
  destruct (slot_in ps t); [by eexists|].
  destruct (slot_in gs t); by eexists.
Qed.

Lemma assign_schedule_returns cls t r w :
  valid (mgr w) cls t r = Return true →
  assign_schedule cls t r w = (Return tt, (assign_schedule cls t r w).2) ∧
  mgr (assign_schedule cls t r w).2 ≠ mgr w ∧
  stdout (assign_schedule cls t r w).2 = stdout w ∧
  journal (assign_schedule cls t r w).2 =
    journal w ++ [{| bk_class := cls; bk_slot := t; bk_room := r |}].
Proof.
  intros (sz & ps & gs & cap & _ & Hps & Hpt & Hgs & _)%valid_true.
  rewrite (assign_schedule_run _ _ _ _ ps gs) by done.
  split_and!; try done. simpl. intros Heq.
  assert (prof_record (mgr (booked cls t r ps gs w)) (cls_professor cls) t
          = prof_record (mgr w) (cls_professor cls) t) as Hrec
    by (simpl; by rewrite Heq).
  rewrite booked_prof_record, decide_True in Hrec by done.
  unfold prof_record in Hrec. rewrite Hps in Hrec. simpl in Hrec. congruence.
Qed.

(** The inner loop takes the first admissible room, if there is one. *)
Lemma try_rooms_run cls t rms w :
  knows (mgr w) cls →
  Forall (λ room, is_Some (room_capacity (mgr w) !! room)) rms →
  (∃ r, r ∈ rms ∧ valid (mgr w) cls t r = Return true ∧
        try_rooms cls t rms w = (Return true, (assign_schedule cls t r w).2))
  ∨ ((∀ r, r ∈ rms → valid (mgr w) cls t r = Return false) ∧
     try_rooms cls t rms w = (Return false, w)).
Proof.
  intros Hk. induction 1 as [|room rms Hroom Hrms IH]; simpl.
  - right. split; [by intros r ?%elem_of_nil | done].
  - rewrite run_bind, is_valid_run.
    destruct (valid_returns (mgr w) cls t room Hk Hroom) as [[|] Hv];
      rewrite Hv.
    + left. exists room. split_and!; [left | done |].
      rewrite run_bind.
      destruct (assign_schedule_returns cls t room w Hv) as [-> _]. done.
    + destruct IH as [(r & Hr & Hvr & Hrun)|[Hall Hrun]].
      * left. exists r. split_and!; [by right | done..].
      * right. split; [|done].
        intros r [->|Hr]%elem_of_cons; [done | by apply Hall].
Qed.

(** The middle loop takes the first candidate slot that has an admissible
    room, if there is one. *)
Lemma try_slots_run cls candidates w :
  knows (mgr w) cls → rooms_covered (mgr w) →
  (∃ t r, t ∈ candidates ∧ r ∈ rooms (mgr w) ∧
          valid (mgr w) cls t r = Return true ∧
          try_slots cls candidates w =
            (Return true, (assign_schedule cls t r w).2))
  ∨ ((∀ t r, t ∈ candidates → r ∈ rooms (mgr w) →
             valid (mgr w) cls t r = Return false) ∧
     try_slots cls candidates w = (Return false, w)).
Proof.
  intros Hk Hcov. induction candidates as [|t rest IH]; simpl.
  - right. split; [by intros t r ?%elem_of_nil | done].
  - rewrite run_bind, run_gets, run_bind.
    destruct (try_rooms_run cls t (rooms (mgr w)) w Hk Hcov)
      as [(r & Hr & Hv & ->)|[Hnone ->]].
    + left. exists t, r. split_and!; [left | done..].
    + destruct IH as [(t' & r & Ht' & Hr & Hv & Hrun)|[Hall Hrun]].
      * left. exists t', r. split_and!; [by right | done..].
      * right. split; [|done].
        intros t' r [->|Ht']%elem_of_cons Hr; [by apply Hnone|by apply Hall].
Qed.

(** A feasible slot among the first candidates keeps the loop from reaching
    the later ones. *)
Lemma try_slots_prefers cls l1 l2 w s r :
  knows (mgr w) cls → rooms_covered (mgr w) →
  s ∈ l1 → r ∈ rooms (mgr w) → valid (mgr w) cls s r = Return true →
  ∃ t room, t ∈ l1 ∧ room ∈ rooms (mgr w) ∧
    valid (mgr w) cls t room = Return true ∧
    try_slots cls (l1 ++ l2) w =
      (Return true, (assign_schedule cls t room w).2).
Proof.
  intros Hk Hcov Hs Hr Hv. induction l1 as [|a l1 IH]; simpl.
  - by apply elem_of_nil in Hs.
  - rewrite run_bind, run_gets, run_bind.
    destruct (try_rooms_run cls a (rooms (mgr w)) w Hk Hcov)
      as [(r' & Hr' & Hv' & ->)|[Hnone ->]].
    + exists a, r'. split_and!; [left | done..].
    + apply elem_of_cons in Hs as [->|Hs].
      * rewrite (Hnone r Hr) in Hv. done.
      * destruct (IH Hs) as (t & room & Ht & Hroom & Hvt & Hrun).
        exists t, room. split_and!; [by right | done..].
Qed.

Section PreferencePriority.

Variable order : SetOrder.

Lemma schedule_class_run cls w :
  schedule_class order cls w =
  match
    try_slots cls
      (intersection_list order
         (default [] (professor_preferences (mgr w) !! cls_professor cls))
         (default [] (group_preferences (mgr w) !! cls_group cls))
       ++ time_slots (mgr w)) w
  with
  | (Return true, w') => (Return tt, w')
  | (Return false, w') => provide_feedback cls w'
  | (Raise e, w') => (Raise e, w')
  end.
Proof.
  unfold schedule_class, get_preferred_slots.
  rewrite !run_bind, !run_gets, !run_bind, !run_gets, !run_ret.
  rewrite run_bind, run_gets, run_bind.
  by destruct (try_slots _ _ _) as [[[|]|e] w'].
Qed.

(** C3 (amended). Preference priority holds whenever every room of the room
    list has a capacity: a class with a feasible common preferred slot is
    committed, by exactly one call of [assign_schedule], to a common
    preferred slot and an admissible room. *)
Theorem preferred_slot_first (w : World) (cls : Class) :
  rooms_covered (mgr w) →
  has_feasible_common_preference w cls →
  committed_to_common_preference order w cls.
Proof.
  intros Hcov (s & r & [Hsp Hsg] & Hr & Hv).
  rewrite is_valid_outcome in Hv.
  pose proof (valid_knows _ _ _ _ Hv) as Hk.
  destruct (try_slots_prefers cls
              (intersection_list order
                 (default [] (professor_preferences (mgr w)
                                !! cls_professor cls))
                 (default [] (group_preferences (mgr w) !! cls_group cls)))
              (time_slots (mgr w)) w s r Hk Hcov)
    as (t & room & Ht & Hroom & Hvt & Hrun); [|done..|].
  { by apply intersection_list_elem. }
  apply intersection_list_elem in Ht.
  exists t, room. rewrite is_valid_outcome, schedule_class_run, Hrun.
  split_and!; try done.
  simpl. by destruct (assign_schedule_returns cls t room w Hvt) as (_&_&_&->).
Qed.

End PreferencePriority.

(** ** When the iteration order of sets cannot matter *)

Lemma intersection_list_small order a b :
  length (first_list_intersection a b) ≤ 1 →
  intersection_list order a b = first_list_intersection a b.
Proof.
  intros Hlen.
  assert (first_list_intersection a b ≡ₚ intersection_list order a b) as Hp.
  { apply NoDup_Permutation.
    - apply (intersection_list_NoDup first_list_order).
    - apply intersection_list_NoDup.
    - intros x. rewrite (intersection_list_elem order).
      apply (intersection_list_elem first_list_order). }
  destruct (first_list_intersection a b) as [|x [|y l]]; simpl in Hlen.
  - by apply Permutation_nil_l in Hp.
  - by apply Permutation_singleton_l in Hp.
  - lia.
Qed.

Lemma schedule_class_small order cls w :
  small_intersection (mgr w) cls →
  schedule_class order cls w = schedule_class first_list_order cls w.
Proof.
  intros Hsmall. rewrite !schedule_class_run.
  by rewrite (intersection_list_small order).
Qed.

Lemma same_preferences_invariant w0 : schedule_invariant (same_preferences w0).
Proof.
  split.
  - intros cls t r w Hw Hv.
    apply valid_true in Hv
      as (sz & ps & gs & cap & _ & Hps & _ & Hgs & _ & _ & _).
    by rewrite (assign_schedule_run _ _ _ _ ps gs).
  - by intros lines w Hw.
Qed.

Lemma for_each_schedule_class_small order cs w :
  Forall (small_intersection (mgr w)) cs →
  for_each (schedule_class order) cs w =
  for_each (schedule_class first_list_order) cs w.
Proof.
  revert w. induction cs as [|cls cs IH]; intros w Hsmall; [done|].
  apply Forall_cons in Hsmall as [Hcls Hcs]. simpl.
  rewrite !run_bind, (schedule_class_small order) by done.
  pose proof (schedule_class_preserves (same_preferences w) first_list_order
                cls (same_preferences_invariant w) w (conj eq_refl eq_refl))
    as [Hp Hg].
  destruct (schedule_class first_list_order cls w) as [[[]|e] w'];
    simpl in *; [|done].
  apply IH. unfold small_intersection in *. by rewrite Hp, Hg.
Qed.

Lemma generate_schedule_small order w :
  Forall (small_intersection (mgr w)) (classes (mgr w)) →
  generate_schedule order w = generate_schedule first_list_order w.
Proof.
  intros Hsmall. unfold generate_schedule.
  rewrite !run_bind, !run_gets. by apply for_each_schedule_class_small.
Qed.

(** C3, counterexample. With rooms [R1, R2] and capacities [{'R2': 50}], the
    class X has the feasible common preferred slot [s] (in room R2), yet the
    loop first asks [is_valid(X, s, 'R1')], which raises [KeyError('R1')]:
    X is not committed, whatever the iteration order of sets. *)
Lemma preference_priority_partial_rooms :
  ¬ ∃ order, preference_priority order PartialRooms.preferring PartialRooms.X.
Proof.
  intros [order Hclaim].
  destruct Hclaim as (t & room & _ & _ & _ & Hrun & _).
  { exists PartialRooms.s, "R2". split_and!.
    - split; compute_done.
    - compute_done.
    - reflexivity. }
  rewrite schedule_class_small in Hrun by compute_done.
  vm_compute in Hrun. discriminate Hrun.
Qed.

Lemma preferred_slot_first_witness :
  committed_to_common_preference first_list_order
    Example.configured Example.Math.
Proof.
  apply (preferred_slot_first first_list_order).
  - compute_done.
  - exists Example.Mon9, "Room 102". split_and!.
    + split; compute_done.
    + compute_done.
    + reflexivity.
Defined.

(** ** Diagnostics *)

Lemma all_of_run {A} (p : A → M bool) (f : A → bool) (l : list A) w :
  (∀ x, x ∈ l → p x w = (Return (f x), w)) →
  all_of p l w = (Return (forallb f l), w).
Proof.
  induction l as [|x l IH]; intros Hp; simpl; [done|].
  rewrite run_bind, Hp by left.
  destruct (f x); simpl; [|done].
  apply IH. intros y Hy. apply Hp. by right.
Qed.

Lemma forallb_bool_decide {A} (f : A → bool) (P : A → Prop)
    `{!∀ x, Decision (P x)} (l : list A) :
  (∀ x, x ∈ l → f x = true ↔ P x) →
  forallb f l = bool_decide (Forall P l).
Proof.
  induction l as [|x l IH]; intros Hf; cbn [forallb].
  - symmetry. apply bool_decide_eq_true_2. constructor.
  - rewrite IH by (intros y Hy; apply Hf; by right).
    destruct (f x) eqn:Hx; cbn [andb].
    + apply Hf in Hx; [|left]. apply bool_decide_ext.
      rewrite Forall_cons. tauto.
    + symmetry. apply bool_decide_eq_false_2.
      intros [HP _]%Forall_cons. apply Hf in HP; [|left]. congruence.
Qed.

Lemma feedback_issues_run cls w class_size :
  class_sizes (mgr w) !! cls_name cls = Some class_size →
  is_Some (professor_schedule (mgr w) !! cls_professor cls) →
  is_Some (group_schedule (mgr w) !! cls_group cls) →
  rooms_covered (mgr w) →
  feedback_issues cls w = (Return (expected_issues (mgr w) cls class_size), w).
Proof.
  intros Hsz [ps Hps] [gs Hgs] Hcov.
  unfold feedback_issues, expected_issues. cbv zeta.
  rewrite run_bind, run_self_getitem, Hsz.
  rewrite run_bind, run_gets, run_bind.
  rewrite (all_of_run _ (slot_in ps)); last first.
  { intros t _. by rewrite run_bind, run_self_getitem, Hps. }
  rewrite (forallb_bool_decide _ (λ t, is_Some
             (prof_record (mgr w) (cls_professor cls) t))); last first.
  { intros t _. unfold prof_record. rewrite Hps. apply slot_in_true. }
  rewrite run_bind, run_gets, run_bind.
  rewrite (all_of_run _ (slot_in gs)); last first.
  { intros t _. by rewrite run_bind, run_self_getitem, Hgs. }
  rewrite (forallb_bool_decide _ (λ t, is_Some
             (group_record (mgr w) (cls_group cls) t))); last first.
  { intros t _. unfold group_record. rewrite Hgs. apply slot_in_true. }
  rewrite run_bind, run_gets, run_bind.
  rewrite (all_of_run _ (λ room, bool_decide
             (exceeds class_size (room_capacity (mgr w) !! room))));
    last first.
  { intros room Hroom. rewrite run_bind, run_self_getitem.
    unfold rooms_covered in Hcov. rewrite Forall_forall in Hcov.
    destruct (Hcov room Hroom) as [cap ->]. done. }
  rewrite (forallb_bool_decide _ (λ room,
             exceeds class_size (room_capacity (mgr w) !! room))); last first.
  { intros room _. apply bool_decide_eq_true. }
  rewrite run_ret. by rewrite app_assoc.
Qed.

Lemma later_knows w w' cls : later w w' → knows (mgr w) cls → knows (mgr w') cls.
Proof.
  intros Hl (Hsz & Hps & Hgs). unfold knows.
  rewrite (later_class_sizes _ _ Hl).
  rewrite <- !elem_of_dom, (later_professor_schedule _ _ Hl),
    (later_group_schedule _ _ Hl), !elem_of_dom. done.
Qed.

Lemma later_rooms_covered w w' :
  later w w' → rooms_covered (mgr w) → rooms_covered (mgr w').
Proof.
  intros Hl. unfold rooms_covered.
  by rewrite (later_rooms _ _ Hl), (later_room_capacity _ _ Hl).
Qed.

(** Records are never removed: an exhausted professor stays exhausted. *)
Lemma later_professor_exhausted w w' p :
  later w w' → professor_exhausted (mgr w) p → professor_exhausted (mgr w') p.
Proof.
  intros Hl. unfold professor_exhausted.
  rewrite (later_time_slots _ _ Hl). intros Hex.
  eapply Forall_impl; [done|].
  intros t. apply (later_prof_records _ _ Hl).
Qed.

Section Diagnostics.

Variable order : SetOrder.

(** A class that is processed is either committed or reported with the
    reasons that hold. *)
Lemma schedule_class_outcome cls w class_size :
  class_sizes (mgr w) !! cls_name cls = Some class_size →
  is_Some (professor_schedule (mgr w) !! cls_professor cls) →
  is_Some (group_schedule (mgr w) !! cls_group cls) →
  rooms_covered (mgr w) →
  (∃ t r, valid (mgr w) cls t r = Return true ∧
          schedule_class order cls w =
            (Return tt, (assign_schedule cls t r w).2))
  ∨ schedule_class order cls w =
      (Return tt,
       printed (report cls (expected_issues (mgr w) cls class_size)) w).
Proof.
  intros Hsz Hps Hgs Hcov.
  assert (knows (mgr w) cls) as Hk by (unfold knows; rewrite Hsz; eauto).
  rewrite schedule_class_run.
  destruct (try_slots_run cls
              (intersection_list order
                 (default [] (professor_preferences (mgr w)
                                !! cls_professor cls))
                 (default [] (group_preferences (mgr w) !! cls_group cls))
               ++ time_slots (mgr w)) w Hk Hcov)
    as [(t & r & _ & _ & Hv & ->)|[_ ->]].
  - left. by exists t, r.
  - right. rewrite provide_feedback_run.
    by rewrite (feedback_issues_run cls w class_size).
Qed.

(** C6 (amended). For a class whose name, professor and group the manager
    knows, and when every room of the room list has a capacity,
    [provide_feedback] returns normally, mutates nothing, and reports exactly
    the reasons that hold (professor exhausted, group exhausted, no room
    fits the size registered under the class's name), in that order, under
    one header line; it prints nothing when none holds. In particular, once
    a professor has a record at every slot of the universe, any class of
    that professor processed later in the run is either committed or
    reported with the reason "No available time slots for professor". *)
Theorem provide_feedback_reports_what_holds
    (cls : Class) (w : World) (class_size : Z) :
  class_sizes (mgr w) !! cls_name cls = Some class_size →
  is_Some (professor_schedule (mgr w) !! cls_professor cls) →
  is_Some (group_schedule (mgr w) !! cls_group cls) →
  rooms_covered (mgr w) →
  feedback_issues cls w =
    (Return (expected_issues (mgr w) cls class_size), w) ∧
  provide_feedback cls w =
    (Return tt,
     printed (report cls (expected_issues (mgr w) cls class_size)) w) ∧
  (professor_exhausted (mgr w) (cls_professor cls) →
   ∀ cs, let w1 := (for_each (schedule_class order) cs w).2 in
     professor_exhausted (mgr w1) (cls_professor cls) ∧
     professor_issue (cls_professor cls)
       ∈ expected_issues (mgr w1) cls class_size ∧
     ((∃ t r, valid (mgr w1) cls t r = Return true ∧
              schedule_class order cls w1 =
                (Return tt, (assign_schedule cls t r w1).2))
      ∨ schedule_class order cls w1 =
          (Return tt,
           printed (report cls (expected_issues (mgr w1) cls class_size))
             w1))).
Proof.
  intros Hsz Hps Hgs Hcov.
  pose proof (feedback_issues_run cls w class_size Hsz Hps Hgs Hcov) as Hrun.
  split_and!; [done | by rewrite provide_feedback_run, Hrun |].
  intros Hex cs w1.
  assert (later w w1) as Hl.
  { apply later_for_each. intros x w'. apply later_schedule_class. }
  assert (knows (mgr w) cls) as Hk by (unfold knows; rewrite Hsz; eauto).
  apply (later_knows _ _ _ Hl) in Hk as (_ & Hps1 & Hgs1).
  pose proof (later_rooms_covered _ _ Hl Hcov) as Hcov1.
  pose proof (later_professor_exhausted _ _ _ Hl Hex) as Hex1.
  assert (class_sizes (mgr w1) !! cls_name cls = Some class_size) as Hsz1
    by by rewrite (later_class_sizes _ _ Hl).
  split_and!; [done | |by apply schedule_class_outcome].
  unfold expected_issues. rewrite bool_decide_eq_true_2 by done.
  apply elem_of_app. left. by apply list_elem_of_singleton.
Qed.

End Diagnostics.

(** C6, counterexample. Classes X (size 20) and Y (size 100) of professor P
    and group G, one slot, rooms [R1, R2], capacities [{'R1': 50}]. X takes
    the only slot in R1. Y cannot be assigned (P and G are busy at the only
    slot, so [is_valid] never looks at a capacity); P and G are exhausted,
    but [provide_feedback(Y)] raises [KeyError('R2')] while it looks for a
    room that fits, so nothing is reported and the run ends there, whatever
    the iteration order of sets. *)
Lemma diagnostics_partial_rooms :
  let w1 :=
    (schedule_class first_list_order PartialRooms.X
       PartialRooms.two_classes).2 in
  journal w1 = [{| bk_class := PartialRooms.X; bk_slot := PartialRooms.s;
                   bk_room := "R1" |}] ∧
  try_slots PartialRooms.Y (time_slots (mgr w1)) w1 = (Return false, w1) ∧
  professor_exhausted (mgr w1) "P" ∧
  group_exhausted (mgr w1) "G" ∧
  provide_feedback PartialRooms.Y w1 = (Raise (KeyError "R2"), w1) ∧
  stdout w1 = [] ∧
  (∀ order,
     generate_schedule order PartialRooms.two_classes
     = (Raise (KeyError "R2"), w1)).
Proof.
  intros w1. split_and!.
  - reflexivity.
  - vm_compute. reflexivity.
  - compute_done.
  - compute_done.
  - vm_compute. reflexivity.
  - reflexivity.
  - intros order. rewrite generate_schedule_small by compute_done.
    vm_compute. reflexivity.
Qed.

(** The diagnostics also need the class's professor (and group) to have a
    schedule: with no room to try, a class of an unknown professor reaches
    [provide_feedback], which raises [KeyError] on the professor. *)
Lemma diagnostics_unknown_professor order :
  generate_schedule order UnknownProfessor.world
  = (Raise (KeyError "Q"), UnknownProfessor.world).
Proof.
  rewrite generate_schedule_small by compute_done. by vm_compute.
Qed.

Lemma provide_feedback_reports_what_holds_witness :
  provide_feedback PartialRooms.X OneSlot.after_first =
  (Return tt,
   printed
     ["Unable to assign class X for group G by professor P. Reasons:";
      "- No available time slots for professor P.";
      "- No available time slots for group G."]
     OneSlot.after_first).
Proof.
  destruct (provide_feedback_reports_what_holds first_list_order
              PartialRooms.X OneSlot.after_first 20%Z) as (_ & Hrun & _).
  - reflexivity.
  - by eexists.
  - by eexists.
  - compute_done.
  - rewrite Hrun. vm_compute. reflexivity.
Defined.

(** ** Room capacities *)

Lemma init_knows cs profs grps slots rms caps cls :
  cls ∈ cs → cls_professor cls ∈ profs → cls_group cls ∈ grps →
  knows (init cs profs grps slots rms caps) cls.
Proof.
  intros Hcls Hp Hg. unfold knows. simpl.
  rewrite dict_comp_lookup, !dict_comp_const_lookup.
  rewrite !decide_True by done. split_and!; [|by eexists..].
  destruct (last (filter (λ x, cls_name x = cls_name cls) cs)) eqn:E;
    [by eexists|].
  apply last_None in E.
  assert (cls ∈ filter (λ x, cls_name x = cls_name cls) cs) as Hin
    by by apply list_elem_of_filter.
  rewrite E in Hin. by apply elem_of_nil in Hin.
Qed.

(** A capacity dict that is given and not empty is used as it is. *)
Lemma init_room_capacity_given cs profs grps slots rms (d : gmap string Z) :
  d ≠ ∅ → room_capacity (init cs profs grps slots rms (Some d)) = d.
Proof.
  intros Hd. simpl. by rewrite bool_decide_eq_false_2.
Qed.

(** C5 (amended). When no capacity dict is given, or an empty one, every
    room of the room list has capacity 30, and in every state of the session
    [is_valid] returns a boolean, without a lookup error, for such a room
    and any class of the class list whose professor and group are in the
    universes. A dict that is given and not empty is used as it is. *)
Theorem default_room_capacity
    (cs : list Class) (profs grps : list string) (slots : list Slot)
    (rms : list string) (room_capacities : option (gmap string Z)) :
  let m := init cs profs grps slots rms room_capacities in
  (truthy room_capacities = false →
   (∀ room, room ∈ rms → room_capacity m !! room = Some 30%Z) ∧
   (∀ w cls t room,
      later (fresh m) w →
      cls ∈ cs → cls_professor cls ∈ profs → cls_group cls ∈ grps →
      room ∈ rms →
      room_capacity (mgr w) !! room = Some 30%Z ∧
      ∃ b, is_valid cls t room w = (Return b, w))) ∧
  (∀ d, room_capacities = Some d → d ≠ ∅ → room_capacity m = d).
Proof.
  intros m. split; [|by intros d -> Hd; apply init_room_capacity_given].
  intros Hfalsy.
  assert (∀ room, room ∈ rms → room_capacity m !! room = Some 30%Z) as Hcap.
  { intros room Hroom. simpl. rewrite Hfalsy, dict_comp_const_lookup.
    by rewrite decide_True. }
  split; [done|].
  intros w cls t room Hl Hcls Hp Hg Hroom.
  assert (room_capacity (mgr w) !! room = Some 30%Z) as Hroom30.
  { rewrite (later_room_capacity _ _ Hl). by apply Hcap. }
  split; [done|].
  rewrite is_valid_run.
  destruct (valid_returns (mgr w) cls t room) as [b ->];
    [| by eexists | by eexists].
  apply (later_knows (fresh m) w); [done|]. by apply init_knows.
Qed.

Lemma default_room_capacity_witness :
  room_capacity
    (init Example.classes Example.professors Example.groups
       Example.time_slots Example.rooms None) !! "Room 102" = Some 30%Z ∧
  ∃ b, is_valid Example.Chemistry Example.Mon9 "Room 102"
         (fresh (init Example.classes Example.professors Example.groups
                   Example.time_slots Example.rooms None))
       = (Return b,
          fresh (init Example.classes Example.professors Example.groups
                   Example.time_slots Example.rooms None)).
Proof.
  destruct (default_room_capacity Example.classes Example.professors
              Example.groups Example.time_slots Example.rooms None)
    as [Hdefault _].
  destruct Hdefault as [Hcap Hvalid]; [reflexivity|].
  split.
  - apply Hcap. compute_done.
  - apply Hvalid; [apply later_refl | compute_done..].
Defined.

(** C5, counterexample. With rooms [R1, R2] and capacities [{'R1': 50}], room
    R2 is absent from the given dict and gets no capacity at all: the first
    feasibility check that reaches the capacity comparison for R2 raises
    [KeyError('R2')]. *)
Lemma no_default_in_partial_mapping :
  let w := PartialRooms.two_classes in
  "R2" ∈ rooms (mgr w) ∧
  (<["R1" := 50%Z]> ∅ : gmap string Z) !! "R2" = None ∧
  room_capacity (mgr w) !! "R2" = None ∧
  is_valid PartialRooms.X PartialRooms.s "R2" w = (Raise (KeyError "R2"), w).
Proof.
  intros w. split_and!.
  - compute_done.
  - reflexivity.
  - reflexivity.
  - vm_compute. reflexivity.
Qed.

(** ** The reference scenario *)

(** In the example only Math has preferences, with one common slot: the
    iteration order of sets plays no role. *)
Lemma example_run_any_order order :
  Example.run order = Example.run first_list_order.
Proof.
  unfold Example.run, Example.script. rewrite !run_bind.
  destruct (Example.configure (fresh Example.timetable_manager))
    as [[[]|e] w] eqn:E; [|done].
  apply generate_schedule_small.
  assert (w = Example.configured) as ->
    by (unfold Example.configured; by rewrite E).
  compute_done.
Qed.

Lemma example_run_first_list_order :
  (Example.run first_list_order).1 = Return tt ∧
  journal (Example.run first_list_order).2 =
    [ {| bk_class := Example.Math; bk_slot := Example.Mon9;
         bk_room := "Room 102" |};
      {| bk_class := Example.Physics; bk_slot := Example.Mon9;
         bk_room := "Room 101" |};
      {| bk_class := Example.Chemistry; bk_slot := Example.Mon9;
         bk_room := "Room 102" |};
      {| bk_class := Example.Chemistry; bk_slot := Example.Mon10;
         bk_room := "Room 102" |};
      {| bk_class := Example.Chemistry; bk_slot := Example.Mon11;
         bk_room := "Room 102" |} ] ∧
  room_capacity (mgr (Example.run first_list_order).2) !! "Room 102"
    = Some 50%Z ∧
  stdout (Example.run first_list_order).2 = [].
Proof. by vm_compute. Qed.

(** The records the run leaves in the schedules at (Monday, 9:00-10:00). *)
Lemma example_run_records :
  prof_record (mgr (Example.run first_list_order).2) "Prof. A" Example.Mon9
    = Some {| pe_class := "Math"; pe_room := "Room 102";
              pe_group := "Group 1" |} ∧
  prof_record (mgr (Example.run first_list_order).2) "Prof. C" Example.Mon9
    = Some {| pe_class := "Chemistry"; pe_room := "Room 102";
              pe_group := "Group 3" |} ∧
  group_record (mgr (Example.run first_list_order).2) "Group 1" Example.Mon9
    = Some {| ge_class := "Math"; ge_room := "Room 102";
              ge_professor := "Prof. A" |} ∧
  group_record (mgr (Example.run first_list_order).2) "Group 3" Example.Mon9
    = Some {| ge_class := "Chemistry"; ge_room := "Room 102";
              ge_professor := "Prof. C" |}.
Proof. by vm_compute. Qed.

(** C4, counterexample. The run seats all three Chemistry sections (Prof. C
    and Group 3 are free at six slots and Room 102 fits at each of them) and
    prints nothing, so the stated outcome holds for no iteration order. *)
Lemma reference_outcome_fails : ¬ ∃ order, reference_outcome order.
Proof.
  intros [order (_ & Hseated & _)].
  rewrite example_run_any_order in Hseated.
  vm_compute in Hseated. lia.
Qed.

(** C4 (amended). The run of the example returns normally; Math is assigned
    to (Monday, 9:00-10:00) in Room 102 (capacity 50), Physics to the same
    slot in Room 101, and all three Chemistry sections are seated, in Room
    102 at the first three Monday slots; nothing is reported. *)
Theorem reference_scenario (order : SetOrder) :
  (Example.run order).1 = Return tt ∧
  journal (Example.run order).2 =
    [ {| bk_class := Example.Math; bk_slot := Example.Mon9;
         bk_room := "Room 102" |};
      {| bk_class := Example.Physics; bk_slot := Example.Mon9;
         bk_room := "Room 101" |};
      {| bk_class := Example.Chemistry; bk_slot := Example.Mon9;
         bk_room := "Room 102" |};
      {| bk_class := Example.Chemistry; bk_slot := Example.Mon10;
         bk_room := "Room 102" |};
      {| bk_class := Example.Chemistry; bk_slot := Example.Mon11;
         bk_room := "Room 102" |} ] ∧
  room_capacity (mgr (Example.run order).2) !! "Room 102" = Some 50%Z ∧
  chemistry_seated (Example.run order).2 = 3 ∧
  stdout (Example.run order).2 = [].
Proof.
  rewrite example_run_any_order.
  destruct example_run_first_list_order as (Hret & Hjournal & Hcap & Hout).
  unfold chemistry_seated. rewrite Hjournal. by split_and!.
Qed.

(** ** Rooms are not owners *)

(** What [assign_schedule] leaves alone, also when it raises half-way. *)
Lemma assign_schedule_frame other t r w :
  class_sizes (mgr (assign_schedule other t r w).2) = class_sizes (mgr w) ∧
  room_capacity (mgr (assign_schedule other t r w).2) = room_capacity (mgr w) ∧
  (∀ p, p ≠ cls_professor other →
     professor_schedule (mgr (assign_schedule other t r w).2) !! p
     = professor_schedule (mgr w) !! p) ∧
  (∀ g, g ≠ cls_group other →
     group_schedule (mgr (assign_schedule other t r w).2) !! g
     = group_schedule (mgr w) !! g).
Proof.
  rewrite assign_schedule_cases. cbv zeta.
  destruct (professor_schedule (mgr w) !! cls_professor other) as [ps|];
    [|by split_and!].
  destruct (group_schedule (mgr w) !! cls_group other) as [gs|]; simpl.
  - split_and!; try done.
    + intros p Hp. by rewrite lookup_insert_ne.
    + intros g Hg. by rewrite lookup_insert_ne.
  - split_and!; try done.
    intros p Hp. by rewrite lookup_insert_ne.
Qed.

(** C9. The verdict of [is_valid] depends on the registered size, the room's
    capacity and the schedules of the class's own professor and group only:
    records of other professors and groups, for the same room and slot or
    any other, do not change it. So after [assign_schedule] has stored, for
    another class of another professor and group, records that name the very
    same room at the very same slot, the verdict is what it was. And the run
    of the example returns normally with Math and Chemistry both committed
    to Room 102 at (Monday, 9:00-10:00): the schedules of Prof. A and
    Prof. C, and those of Group 1 and Group 3, each hold a record for that
    room at that slot, for two distinct classes. *)
Theorem rooms_never_conflict_checked :
  (∀ m m' cls t r,
     class_sizes m' = class_sizes m →
     room_capacity m' = room_capacity m →
     professor_schedule m' !! cls_professor cls
       = professor_schedule m !! cls_professor cls →
     group_schedule m' !! cls_group cls = group_schedule m !! cls_group cls →
     valid m' cls t r = valid m cls t r) ∧
  (∀ cls other t r w,
     cls_professor other ≠ cls_professor cls →
     cls_group other ≠ cls_group cls →
     (is_valid cls t r (assign_schedule other t r w).2).1
     = (is_valid cls t r w).1) ∧
  (∀ cls other t r w,
     is_Some (professor_schedule (mgr w) !! cls_professor other) →
     is_Some (group_schedule (mgr w) !! cls_group other) →
     cls_professor other ≠ cls_professor cls →
     cls_group other ≠ cls_group cls →
     let w' := (assign_schedule other t r w).2 in
     prof_record (mgr w') (cls_professor other) t
       = Some {| pe_class := cls_name other; pe_room := r;
                 pe_group := cls_group other |} ∧
     group_record (mgr w') (cls_group other) t
       = Some {| ge_class := cls_name other; ge_room := r;
                 ge_professor := cls_professor other |} ∧
     is_valid cls t r w' = ((is_valid cls t r w).1, w')) ∧
  (∀ order,
     let w := (Example.run order).2 in
     (Example.run order).1 = Return tt ∧
     {| bk_class := Example.Math; bk_slot := Example.Mon9;
        bk_room := "Room 102" |} ∈ journal w ∧
     {| bk_class := Example.Chemistry; bk_slot := Example.Mon9;
        bk_room := "Room 102" |} ∈ journal w ∧
     prof_record (mgr w) "Prof. A" Example.Mon9
       = Some {| pe_class := "Math"; pe_room := "Room 102";
                 pe_group := "Group 1" |} ∧
     prof_record (mgr w) "Prof. C" Example.Mon9
       = Some {| pe_class := "Chemistry"; pe_room := "Room 102";
                 pe_group := "Group 3" |} ∧
     group_record (mgr w) "Group 1" Example.Mon9
       = Some {| ge_class := "Math"; ge_room := "Room 102";
                 ge_professor := "Prof. A" |} ∧
     group_record (mgr w) "Group 3" Example.Mon9
       = Some {| ge_class := "Chemistry"; ge_room := "Room 102";
                 ge_professor := "Prof. C" |}).
Proof.
  assert (∀ m m' cls t r,
     class_sizes m' = class_sizes m →
     room_capacity m' = room_capacity m →
     professor_schedule m' !! cls_professor cls
       = professor_schedule m !! cls_professor cls →
     group_schedule m' !! cls_group cls = group_schedule m !! cls_group cls →
     valid m' cls t r = valid m cls t r) as Hdep.
  { intros m m' cls t r Hsz Hcap Hps Hgs.
    by rewrite !valid_unfold, Hsz, Hcap, Hps, Hgs. }
  assert (∀ cls other t r w,
     cls_professor other ≠ cls_professor cls →
     cls_group other ≠ cls_group cls →
     (is_valid cls t r (assign_schedule other t r w).2).1
     = (is_valid cls t r w).1) as Hsame.
  { intros cls other t r w Hp Hg. rewrite !is_valid_outcome.
    destruct (assign_schedule_frame other t r w) as (Hsz & Hcap & Hps & Hgs).
    apply Hdep; auto. }
  split; [done|]. split; [done|]. split.
  - intros cls other t r w [ps Hps] [gs Hgs] Hp Hg w'.
    split; [|split].
    + unfold w'. rewrite (assign_schedule_run _ _ _ _ ps gs) by done.
      simpl snd. rewrite booked_prof_record by done. by rewrite decide_True.
    + unfold w'. rewrite (assign_schedule_run _ _ _ _ ps gs) by done.
      simpl snd. rewrite booked_group_record by done. by rewrite decide_True.
    + rewrite is_valid_run. f_equal. rewrite <- is_valid_outcome.
      by apply Hsame.
  - intros order. rewrite example_run_any_order.
    destruct example_run_first_list_order as (Hret & Hjournal & _).
    destruct example_run_records as (Hpa & Hpc & Hg1 & Hg3).
    cbv zeta. rewrite Hjournal.
    split; [exact Hret|]. split; [apply list_elem_of_here|].
    split; [do 2 apply list_elem_of_further; apply list_elem_of_here|].
    split; [exact Hpa|]. split; [exact Hpc|]. split; [exact Hg1|exact Hg3].
Qed.

Lemma rooms_never_conflict_checked_witness :
  let w := fresh Example.timetable_manager in
  let w' := (assign_schedule Example.Chemistry Example.Mon9 "Room 102" w).2 in
  prof_record (mgr w') "Prof. C" Example.Mon9
    = Some {| pe_class := "Chemistry"; pe_room := "Room 102";
              pe_group := "Group 3" |} ∧
  is_valid Example.Math Example.Mon9 "Room 102" w = (Return true, w) ∧
  is_valid Example.Math Example.Mon9 "Room 102" w' = (Return true, w').
Proof.
  intros w w'.
  destruct rooms_never_conflict_checked as (_ & _ & Hoccupied & _).
  destruct (Hoccupied Example.Math Example.Chemistry Example.Mon9 "Room 102" w)
    as (Hrec & _ & Hvalid); [compute_done..|].
  split; [exact Hrec|]. split; [reflexivity|].
  unfold w'. rewrite Hvalid. reflexivity.
Defined.

(** ** Class sizes are looked up by name *)

Lemma fits_registered_size_invariant m0 :
  schedule_invariant (fits_registered_size m0).
Proof.
  split.
  - intros cls t r w (Hsz & Hcap & Hfit) Hv.
    apply valid_true in Hv
      as (sz & ps & gs & cap & Hsz' & Hps & _ & Hgs & _ & Hcap' & Hle).
    rewrite (assign_schedule_run _ _ _ _ ps gs) by done.
    split_and!; [done..|]. simpl.
    intros b [Hb|Hb%list_elem_of_singleton]%elem_of_app; [by apply Hfit|].
    subst b. exists sz, cap. simpl. by rewrite <- Hsz, <- Hcap.
  - by intros lines w.
Qed.

Lemma session_fits_registered_size order cs profs grps slots rms caps settings :
  fits_registered_size (init cs profs grps slots rms caps)
    (session order cs profs grps slots rms caps settings).
Proof.
  unfold session. apply preserves_bind.
  - apply preserves_for_each. intros s w. destruct s as [p prefs|g prefs]; simpl.
    + rewrite set_professor_preferences_run. simpl. by destruct (bool_decide _).
    + rewrite set_group_preferences_run. simpl. by destruct (bool_decide _).
  - intros _. apply generate_schedule_preserves, fits_registered_size_invariant.
  - split_and!; [done..|]. by intros b ?%elem_of_nil.
Qed.

Lemma filter_none {A} (P : A → Prop) `{!∀ x, Decision (P x)} (l : list A) :
  (∀ x, x ∈ l → ¬ P x) → filter P l = [].
Proof.
  induction l as [|x l IH]; intros HP; [done|].
  rewrite filter_cons_False by (apply HP; left).
  apply IH. intros y Hy. apply HP. by right.
Qed.

(** What [__init__] registers under a name. *)
Lemma init_class_sizes cs profs grps slots rms caps name :
  class_sizes (init cs profs grps slots rms caps) !! name
  = size_or_default <$> last_named name cs.
Proof. apply dict_comp_lookup. Qed.

(** The verdict of [is_valid] when all four lookups succeed. *)
Lemma valid_verdict m cls t r class_size psched gsched capacity :
  class_sizes m !! cls_name cls = Some class_size →
  professor_schedule m !! cls_professor cls = Some psched →
  group_schedule m !! cls_group cls = Some gsched →
  room_capacity m !! r = Some capacity →
  valid m cls t r
  = Return (verdict_for_size class_size psched gsched t capacity).
Proof.
  intros Hsz Hps Hgs Hcap. rewrite valid_unfold, Hsz, Hps, Hgs, Hcap.
  unfold verdict_for_size. by destruct (slot_in psched t), (slot_in gsched t).
Qed.

(** When a later session bears the name, the last session of that name is
    that one or one after it. *)
Lemma last_named_of_later name before earlier between later_one after :
  cls_name later_one = name →
  ∃ l,
    last_named name (before ++ earlier :: between ++ later_one :: after)
      = Some l ∧
    l ∈ later_one :: after ∧
    cls_name l = name ∧
    ((∀ c, c ∈ after → cls_name c ≠ name) → l = later_one).
Proof.
  intros Hname. unfold last_named.
  rewrite (app_comm_cons between), (app_assoc before).
  rewrite filter_app, (filter_cons_True _ later_one) by done.
  rewrite last_app.
  destruct (last (later_one :: filter (λ c, cls_name c = name) after))
    as [l|] eqn:E; [|by apply last_None in E].
  exists l. split; [done|].
  pose proof (last_Some_elem_of _ _ E) as Hin.
  split; [|split].
  - apply elem_of_cons in Hin as [->|[_ Hin]%list_elem_of_filter];
      [by left|by right].
  - by apply elem_of_cons in Hin as [->|[? _]%list_elem_of_filter].
  - intros Hafter. rewrite (filter_none _ after) in E by done.
    by injection E as ->.
Qed.

(** C10, counterexample. Sessions A1 (size 10), A2 (size 20) and A3
    (size 10) share the name A; the room R has capacity 15. A1 and A2 are
    two sessions of one name with different sizes, A1 the earlier. The size
    registered for A is 10, that of A3, the last of the name: [is_valid]
    admits A1 into R, while a check against the size of A2, the later
    session, would refuse it. *)
Lemma later_session_size_not_used :
  class_sizes (mgr ThreeSessions.world) !! "A" = Some 10%Z ∧
  size_or_default ThreeSessions.A2 = 20%Z ∧
  is_valid ThreeSessions.A1 ThreeSessions.s "R" ThreeSessions.world
    = (Return true, ThreeSessions.world) ∧
  verdict_for_size (size_or_default ThreeSessions.A2) ∅ ∅ ThreeSessions.s 15
    = false ∧
  ¬ checked_against_later_session ThreeSessions.classes
      ThreeSessions.professors ThreeSessions.groups [ThreeSessions.s] ["R"]
      (Some ThreeSessions.room_capacities).
Proof.
  split; [reflexivity|]. split; [reflexivity|].
  split; [by vm_compute|]. split; [reflexivity|].
  intros Hclaim.
  destruct (Hclaim [] ThreeSessions.A1 [] ThreeSessions.A2 [ThreeSessions.A3])
    as [Hsize _]; [reflexivity | reflexivity | by vm_compute |].
  vm_compute in Hsize. discriminate Hsize.
Qed.

(** C10 (amended). The size of a class is the entry of [class_sizes] under
    its name, which [__init__] fills with the size (default 20) of the last
    class of the list bearing that name. In every state of the manager,
    [is_valid] answers for a class whether its professor and its group are
    free and whether the size of that last class fits the room, and the
    diagnostics report the room reason for, and print, the size of that last
    class; the session's own field ['size'] is never read again, and every
    committed room fits the size of the last class of the name. Hence, when
    two sessions share a name, the earlier one is checked against the size
    of the last session of that name, which is the later session or one
    after it: the later one itself when no session after it bears the
    name. *)
Theorem class_size_by_name_last_wins
    (cs : list Class) (profs grps : list string) (slots : list Slot)
    (rms : list string) (caps : option (gmap string Z)) :
  let m := init cs profs grps slots rms caps in
  (∀ name, class_sizes m !! name = size_or_default <$> last_named name cs) ∧
  (∀ w cls l t r psched gsched capacity,
     later (fresh m) w →
     last_named (cls_name cls) cs = Some l →
     professor_schedule (mgr w) !! cls_professor cls = Some psched →
     group_schedule (mgr w) !! cls_group cls = Some gsched →
     room_capacity (mgr w) !! r = Some capacity →
     is_valid cls t r w =
       (Return (verdict_for_size (size_or_default l) psched gsched t capacity),
        w)) ∧
  (∀ w cls l,
     later (fresh m) w →
     last_named (cls_name cls) cs = Some l →
     is_Some (professor_schedule (mgr w) !! cls_professor cls) →
     is_Some (group_schedule (mgr w) !! cls_group cls) →
     rooms_covered (mgr w) →
     feedback_issues cls w =
       (Return (expected_issues (mgr w) cls (size_or_default l)), w) ∧
     provide_feedback cls w =
       (Return tt,
        printed (report cls (expected_issues (mgr w) cls (size_or_default l)))
          w)) ∧
  (∀ cls own_size t r w,
     let cls' := {| cls_name := cls_name cls;
                    cls_professor := cls_professor cls;
                    cls_group := cls_group cls; cls_size := own_size |} in
     is_valid cls' t r w = is_valid cls t r w ∧
     feedback_issues cls' w = feedback_issues cls w ∧
     provide_feedback cls' w = provide_feedback cls w) ∧
  (∀ order settings b,
     b ∈ journal (session order cs profs grps slots rms caps settings) →
     ∃ l capacity,
       last_named (cls_name (bk_class b)) cs = Some l ∧
       room_capacity m !! bk_room b = Some capacity ∧
       (size_or_default l ≤ capacity)%Z) ∧
  (∀ before earlier between later_one after,
     cs = before ++ earlier :: between ++ later_one :: after →
     cls_name earlier = cls_name later_one →
     ∃ l,
       l ∈ later_one :: after ∧
       cls_name l = cls_name earlier ∧
       last_named (cls_name earlier) cs = Some l ∧
       ((∀ c, c ∈ after → cls_name c ≠ cls_name later_one) → l = later_one) ∧
       class_sizes m !! cls_name earlier = Some (size_or_default l) ∧
       ∀ w t r psched gsched capacity,
         later (fresh m) w →
         professor_schedule (mgr w) !! cls_professor earlier = Some psched →
         group_schedule (mgr w) !! cls_group earlier = Some gsched →
         room_capacity (mgr w) !! r = Some capacity →
         is_valid earlier t r w =
           (Return (verdict_for_size (size_or_default l)
                      psched gsched t capacity), w)).
Proof.
  intros m.
  assert (∀ w cls l t r psched gsched capacity,
     later (fresh m) w →
     last_named (cls_name cls) cs = Some l →
     professor_schedule (mgr w) !! cls_professor cls = Some psched →
     group_schedule (mgr w) !! cls_group cls = Some gsched →
     room_capacity (mgr w) !! r = Some capacity →
     is_valid cls t r w =
       (Return (verdict_for_size (size_or_default l) psched gsched t capacity),
        w)) as Hcheck.
  { intros w cls l t r ps gs cap Hl Hlast Hps Hgs Hcap.
    rewrite is_valid_run. f_equal. apply valid_verdict; [|done..].
    rewrite (later_class_sizes _ _ Hl). simpl mgr. unfold m.
    by rewrite init_class_sizes, Hlast. }
  split; [intros name; apply init_class_sizes|].
  split; [exact Hcheck|].
  split; [|split; [|split]].
  - intros w cls l Hl Hlast Hps Hgs Hcov.
    assert (class_sizes (mgr w) !! cls_name cls = Some (size_or_default l))
      as Hsz.
    { rewrite (later_class_sizes _ _ Hl). simpl mgr. unfold m.
      by rewrite init_class_sizes, Hlast. }
    pose proof (feedback_issues_run cls w _ Hsz Hps Hgs Hcov) as Hrun.
    split; [done|]. by rewrite provide_feedback_run, Hrun.
  - intros cls own_size t r w cls'. by split_and!.
  - intros order settings b Hb.
    destruct (session_fits_registered_size order cs profs grps slots rms caps
                settings) as (_ & _ & Hfit).
    destruct (Hfit b Hb) as (sz & cap & Hsz & Hcap & Hle).
    rewrite init_class_sizes in Hsz.
    apply fmap_Some in Hsz as (l & Hlast & ->).
    by exists l, cap.
  - intros before earlier between later_one after Hcs Hname.
    destruct (last_named_of_later (cls_name earlier) before earlier between
                later_one after) as (l & Hlast & Hin & Hl & Honly); [done|].
    rewrite <- Hcs in Hlast.
    exists l. split; [done|]. split; [done|]. split; [done|].
    split; [intros Hafter; apply Honly; by rewrite Hname|].
    split; [unfold m; by rewrite init_class_sizes, Hlast|].
    intros w t r ps gs cap Hlater Hps Hgs Hcap. by apply Hcheck.
Qed.

Lemma class_size_by_name_last_wins_witness :
  let w := SharedName.world in
  let w' :=
    fresh (init [SharedName.Tutorial; SharedName.Lecture] ["P1"; "P2"]
             ["G1"; "G2"] [SharedName.s] ["R"] (Some (<["R" := 30%Z]> ∅))) in
  is_valid SharedName.Lecture SharedName.s "R" w = (Return true, w) ∧
  is_valid SharedName.Tutorial SharedName.s "R" w' = (Return false, w') ∧
  provide_feedback SharedName.Tutorial w' =
    (Return tt,
     printed
       ["Unable to assign class Algebra for group G2 by professor P2. Reasons:";
        "- No rooms with sufficient capacity for class Algebra (size: 100)."]
       w').
Proof.
  intros w w'.
  destruct (class_size_by_name_last_wins
              [SharedName.Lecture; SharedName.Tutorial] ["P1"; "P2"]
              ["G1"; "G2"] [SharedName.s] ["R"] (Some (<["R" := 30%Z]> ∅)))
    as (_ & Hcheck & _).
  destruct (class_size_by_name_last_wins
              [SharedName.Tutorial; SharedName.Lecture] ["P1"; "P2"]
              ["G1"; "G2"] [SharedName.s] ["R"] (Some (<["R" := 30%Z]> ∅)))
    as (_ & Hcheck' & Hreport & _).
  split; [|split].
  - rewrite (Hcheck w SharedName.Lecture SharedName.Tutorial SharedName.s "R"
               ∅ ∅ 30%Z);
      [reflexivity | apply later_refl | reflexivity..].
  - rewrite (Hcheck' w' SharedName.Tutorial SharedName.Lecture SharedName.s
               "R" ∅ ∅ 30%Z);
      [reflexivity | apply later_refl | reflexivity..].
  - destruct (Hreport w' SharedName.Tutorial SharedName.Lecture)
      as [_ Hrun];
      [apply later_refl | reflexivity | by eexists | by eexists
      | compute_done |].
    rewrite Hrun. vm_compute. reflexivity.
Defined.

(** C2, the failing input. The lecture (own size 100) and the tutorial (own
    size 10) share the name Algebra, so [class_sizes] keeps 10 for both:
    [generate_schedule] commits the lecture, and stores its record, in room R
    of capacity 30, whatever the iteration order of sets. *)
Theorem capacity_exceeded_under_shared_name (order : SetOrder) :
  let w := (generate_schedule order SharedName.world).2 in
  {| bk_class := SharedName.Lecture; bk_slot := SharedName.s;
     bk_room := "R" |} ∈ journal w ∧
  prof_record (mgr w) "P1" SharedName.s
    = Some {| pe_class := "Algebra"; pe_room := "R"; pe_group := "G1" |} ∧
  class_sizes (mgr w) !! "Algebra" = Some 10%Z ∧
  room_capacity (mgr w) !! "R" = Some 30%Z ∧
  size_or_default SharedName.Lecture = 100%Z ∧
  (size_or_default SharedName.Lecture > 30)%Z.
Proof.
  rewrite generate_schedule_small by compute_done.
  intros w. split_and!; try done.
  apply list_elem_of_here.
Qed.


(** * Further properties of the methods *)

(** ** Preferences: lookup, update, composition *)

Lemma nil_of_no_elem {A} (l : list A) : (∀ x, x ∉ l) → l = [].
Proof.
  destruct l as [|x l]; [done|]. intros H. destruct (H x). left.
Qed.

(** X1. [get_preferred_slots] never raises and mutates nothing; it returns
    each slot that both the professor's and the group's list hold exactly
    once; a professor or a group without a preference list counts as
    preferring nothing ([.get(..., [])]), so the result is empty. *)
Theorem get_preferred_slots_common
    (order : SetOrder) (cls : Class) (w : World) :
  ∃ l, get_preferred_slots order cls w = (Return l, w) ∧
       NoDup l ∧
       (∀ t, t ∈ l ↔ common_preference (mgr w) cls t) ∧
       (professor_preferences (mgr w) !! cls_professor cls = None ∨
        group_preferences (mgr w) !! cls_group cls = None → l = []).
Proof.
  eexists. split; [reflexivity|]. split_and!.
  - apply intersection_list_NoDup.
  - intros t. apply intersection_list_elem.
  - intros Hnone. apply nil_of_no_elem. intros t.
    rewrite intersection_list_elem.
    destruct Hnone as [-> | ->]; simpl; intros [H1 H2];
      by apply elem_of_nil in H1 || by apply elem_of_nil in H2.
Qed.

(** X2. The setters compose as dict assignments do: a second call for the
    same id replaces the first, calls for different ids commute, and a
    professor setting commutes with a group setting, for known and unknown
    ids alike. *)
Theorem set_preferences_compose (w : World) :
  (∀ p a b,
     (set_professor_preferences p a;; set_professor_preferences p b) w
     = set_professor_preferences p b w) ∧
  (∀ g a b,
     (set_group_preferences g a;; set_group_preferences g b) w
     = set_group_preferences g b w) ∧
  (∀ p q a b, p ≠ q →
     (set_professor_preferences p a;; set_professor_preferences q b) w
     = (set_professor_preferences q b;; set_professor_preferences p a) w) ∧
  (∀ g h a b, g ≠ h →
     (set_group_preferences g a;; set_group_preferences h b) w
     = (set_group_preferences h b;; set_group_preferences g a) w) ∧
  (∀ p g a b,
     (set_professor_preferences p a;; set_group_preferences g b) w
     = (set_group_preferences g b;; set_professor_preferences p a) w).
Proof.
  split_and!.
  - intros p a b.
    rewrite run_bind, (set_professor_preferences_run p a w). cbv beta iota.
    rewrite !set_professor_preferences_run.
    destruct (bool_decide (is_Some (professor_preferences (mgr w) !! p)))
      eqn:Hp; simpl; [|by rewrite Hp].
    rewrite lookup_insert_eq, bool_decide_eq_true_2 by by eexists.
    unfold with_professor_preferences. simpl. by rewrite insert_insert_eq.
  - intros g a b.
    rewrite run_bind, (set_group_preferences_run g a w). cbv beta iota.
    rewrite !set_group_preferences_run.
    destruct (bool_decide (is_Some (group_preferences (mgr w) !! g)))
      eqn:Hg; simpl; [|by rewrite Hg].
    rewrite lookup_insert_eq, bool_decide_eq_true_2 by by eexists.
    unfold with_group_preferences. simpl. by rewrite insert_insert_eq.
  - intros p q a b Hpq.
    rewrite !run_bind, (set_professor_preferences_run p a w),
      (set_professor_preferences_run q b w). cbv beta iota.
    rewrite !set_professor_preferences_run.
    destruct (bool_decide (is_Some (professor_preferences (mgr w) !! p)))
      eqn:Hp;
      destruct (bool_decide (is_Some (professor_preferences (mgr w) !! q)))
        eqn:Hq; simpl;
      rewrite ?lookup_insert_ne, ?Hp, ?Hq by done; try done.
    unfold with_professor_preferences. simpl.
    by rewrite insert_insert_ne.
  - intros g h a b Hgh.
    rewrite !run_bind, (set_group_preferences_run g a w),
      (set_group_preferences_run h b w). cbv beta iota.
    rewrite !set_group_preferences_run.
    destruct (bool_decide (is_Some (group_preferences (mgr w) !! g)))
      eqn:Hg;
      destruct (bool_decide (is_Some (group_preferences (mgr w) !! h)))
        eqn:Hh; simpl;
      rewrite ?lookup_insert_ne, ?Hg, ?Hh by done; try done.
    unfold with_group_preferences. simpl.
    by rewrite insert_insert_ne.
  - intros p g a b.
    rewrite !run_bind, (set_professor_preferences_run p a w),
      (set_group_preferences_run g b w). cbv beta iota.
    rewrite set_professor_preferences_run, set_group_preferences_run.
    destruct (bool_decide (is_Some (professor_preferences (mgr w) !! p)))
      eqn:Hp;
      destruct (bool_decide (is_Some (group_preferences (mgr w) !! g)))
        eqn:Hg; simpl; rewrite ?Hp, ?Hg; done.
Qed.

(** X3. Round trip through the preference store: once a known professor and
    a known group were given their lists, [get_preferred_slots] for a class
    of that professor and group returns exactly the slots the two lists
    share, each once. *)
Theorem preferences_round_trip
    (order : SetOrder) (cls : Class) (a b : list Slot) (w : World) :
  is_Some (professor_preferences (mgr w) !! cls_professor cls) →
  is_Some (group_preferences (mgr w) !! cls_group cls) →
  let w' := ((set_professor_preferences (cls_professor cls) a;;
              set_group_preferences (cls_group cls) b) w).2 in
  ∃ l, get_preferred_slots order cls w' = (Return l, w') ∧
       NoDup l ∧ ∀ t, t ∈ l ↔ t ∈ a ∧ t ∈ b.
Proof.
  intros Hp Hg w'.
  exists (intersection_list order a b). split_and!.
  - unfold w'.
    rewrite run_bind, set_professor_preferences_run. cbv beta iota.
    rewrite set_group_preferences_run.
    rewrite (bool_decide_eq_true_2 _ Hp). simpl.
    rewrite (bool_decide_eq_true_2 _ Hg). simpl.
    unfold get_preferred_slots.
    rewrite run_bind, run_gets. cbv beta iota.
    rewrite run_bind, run_gets. cbv beta iota. simpl.
    by rewrite !lookup_insert_eq.
  - apply intersection_list_NoDup.
  - intros t. apply intersection_list_elem.
Qed.

Lemma preferences_round_trip_witness :
  ∃ l, get_preferred_slots first_list_order Example.Math Example.configured
       = (Return l, Example.configured) ∧
       NoDup l ∧
       ∀ t, t ∈ l ↔ t ∈ [Example.Mon9; Example.Tue10]
                    ∧ t ∈ [Example.Mon9; Example.Mon10].
Proof.
  apply (preferences_round_trip first_list_order Example.Math
           [Example.Mon9; Example.Tue10] [Example.Mon9; Example.Mon10]
           (fresh Example.timetable_manager)); compute_done.
Defined.

(** ** The feasibility check *)


(** ** Direct calls of [assign_schedule] *)

(** X5. After [assign_schedule] for a class whose professor and group have
    schedules, both owners hold the record of that class at the slot, and
    [is_valid] no longer answers [True] at that slot for any class of the
    same professor or of the same group, whatever the room. *)
Theorem assigned_slot_is_taken
    (cls : Class) (t : Slot) (r : string) (w : World) :
  is_Some (professor_schedule (mgr w) !! cls_professor cls) →
  is_Some (group_schedule (mgr w) !! cls_group cls) →
  let w' := (assign_schedule cls t r w).2 in
  (assign_schedule cls t r w).1 = Return tt ∧
  prof_record (mgr w') (cls_professor cls) t = Some (prof_entry cls r) ∧
  group_record (mgr w') (cls_group cls) t = Some (group_entry cls r) ∧
  ∀ other r',
    cls_professor other = cls_professor cls ∨ cls_group other = cls_group cls →
    (is_valid other t r' w').1 ≠ Return true.
Proof.
  intros [ps Hps] [gs Hgs] w'. unfold w'.
  rewrite (assign_schedule_run _ _ _ _ ps gs) by done. simpl.
  assert (prof_record (mgr (booked cls t r ps gs w)) (cls_professor cls) t
          = Some (prof_entry cls r)) as Hprec.
  { rewrite booked_prof_record by done. by rewrite decide_True. }
  assert (group_record (mgr (booked cls t r ps gs w)) (cls_group cls) t
          = Some (group_entry cls r)) as Hgrec.
  { rewrite booked_group_record by done. by rewrite decide_True. }
  split_and!; [done..|].
  intros other r' Hsame. rewrite is_valid_outcome.
  intros (sz & ps' & gs' & cap & _ & Hps' & Hfree & Hgs' & Hgfree & _)%valid_true.
  destruct Hsame as [Heq|Heq]; rewrite Heq in *.
  - unfold prof_record in Hprec. rewrite Hps' in Hprec. simpl in Hprec.
    congruence.
  - unfold group_record in Hgrec. rewrite Hgs' in Hgrec. simpl in Hgrec.
    congruence.
Qed.

Lemma assigned_slot_is_taken_witness :
  let w' := (assign_schedule Example.Math Example.Mon9 "Room 102"
               (fresh Example.timetable_manager)).2 in
  prof_record (mgr w') "Prof. A" Example.Mon9
    = Some {| pe_class := "Math"; pe_room := "Room 102";
              pe_group := "Group 1" |} ∧
  (is_valid Example.Math Example.Mon9 "Room 103" w').1 ≠ Return true.
Proof.
  intros w'.
  destruct (assigned_slot_is_taken Example.Math Example.Mon9 "Room 102"
              (fresh Example.timetable_manager))
    as (_ & Hp & _ & Htaken); [compute_done..|].
  split; [exact Hp|]. apply Htaken. by left.
Defined.

(** X6. [assign_schedule] is not atomic. For a professor without a schedule
    it raises [KeyError] on the professor and stores nothing. For a known
    professor and a group without a schedule it raises [KeyError] on the
    group after the professor's record was stored: the professor is then
    booked at the slot while no group schedule has changed. *)
Theorem assign_schedule_unknown_owner
    (cls : Class) (t : Slot) (r : string) (w : World) :
  let w' := (assign_schedule cls t r w).2 in
  (professor_schedule (mgr w) !! cls_professor cls = None →
   (assign_schedule cls t r w).1 = Raise (KeyError (cls_professor cls)) ∧
   mgr w' = mgr w) ∧
  (is_Some (professor_schedule (mgr w) !! cls_professor cls) →
   group_schedule (mgr w) !! cls_group cls = None →
   (assign_schedule cls t r w).1 = Raise (KeyError (cls_group cls)) ∧
   prof_record (mgr w') (cls_professor cls) t = Some (prof_entry cls r) ∧
   group_schedule (mgr w') = group_schedule (mgr w) ∧
   stdout w' = stdout w).
Proof.
  intros w'. unfold w'. rewrite assign_schedule_cases. cbv zeta. split.
  - by intros ->.
  - intros [ps ->] ->. simpl. split_and!; try done.
    unfold prof_record. simpl. rewrite lookup_insert_eq. simpl.
    by rewrite lookup_insert_eq.
Qed.

(** X7. Called without the [is_valid] guard, [assign_schedule] overwrites:
    a second class of the same professor at the same slot replaces the
    professor's record, while the group of the first class keeps its record
    of a class the professor no longer teaches. *)
Theorem assign_schedule_overwrites
    (c1 c2 : Class) (t : Slot) (r1 r2 : string) (w : World) :
  cls_professor c1 = cls_professor c2 →
  cls_group c1 ≠ cls_group c2 →
  is_Some (professor_schedule (mgr w) !! cls_professor c1) →
  is_Some (group_schedule (mgr w) !! cls_group c1) →
  is_Some (group_schedule (mgr w) !! cls_group c2) →
  let w' := ((assign_schedule c1 t r1;; assign_schedule c2 t r2) w).2 in
  prof_record (mgr w') (cls_professor c1) t = Some (prof_entry c2 r2) ∧
  group_record (mgr w') (cls_group c1) t = Some (group_entry c1 r1) ∧
  group_record (mgr w') (cls_group c2) t = Some (group_entry c2 r2).
Proof.
  intros Hprof Hgroup [ps Hps] [gs1 Hgs1] [gs2 Hgs2] w'. unfold w'.
  rewrite run_bind, (assign_schedule_run _ _ _ _ ps gs1) by done.
  set (w1 := booked c1 t r1 ps gs1 w).
  assert (professor_schedule (mgr w1) !! cls_professor c2
          = Some (<[t := prof_entry c1 r1]> ps)) as Hps1.
  { simpl. by rewrite <- Hprof, lookup_insert_eq. }
  assert (group_schedule (mgr w1) !! cls_group c2 = Some gs2) as Hgs1'.
  { simpl. by rewrite lookup_insert_ne. }
  rewrite (assign_schedule_run _ _ _ _ _ _ Hps1 Hgs1'). simpl snd.
  split_and!.
  - rewrite booked_prof_record by done. by rewrite decide_True by congruence.
  - rewrite booked_group_record by done.
    rewrite decide_False by congruence.
    unfold w1. rewrite booked_group_record by done. by rewrite decide_True.
  - rewrite booked_group_record by done. by rewrite decide_True.
Qed.

Lemma assign_schedule_overwrites_witness :
  let w' := ((assign_schedule SharedName.Lecture SharedName.s "R";;
              assign_schedule
                {| cls_name := "Seminar"; cls_professor := "P1";
                   cls_group := "G2"; cls_size := None |}
                SharedName.s "R") SharedName.world).2 in
  prof_record (mgr w') "P1" SharedName.s
    = Some {| pe_class := "Seminar"; pe_room := "R"; pe_group := "G2" |} ∧
  group_record (mgr w') "G1" SharedName.s
    = Some {| ge_class := "Algebra"; ge_room := "R"; ge_professor := "P1" |}.
Proof.
  intros w'.
  destruct (assign_schedule_overwrites SharedName.Lecture
              {| cls_name := "Seminar"; cls_professor := "P1";
                 cls_group := "G2"; cls_size := None |}
              SharedName.s "R" "R" SharedName.world)
    as (Hp & Hg & _); [compute_done..|].
  by split.
Defined.

(** ** The search of [generate_schedule] *)

Lemma try_rooms_first cls t rms w :
  knows (mgr w) cls →
  Forall (λ room, is_Some (room_capacity (mgr w) !! room)) rms →
  (∃ rpre r rpost,
     rms = rpre ++ r :: rpost ∧
     (∀ r', r' ∈ rpre → valid (mgr w) cls t r' = Return false) ∧
     valid (mgr w) cls t r = Return true ∧
     try_rooms cls t rms w = (Return true, (assign_schedule cls t r w).2))
  ∨ ((∀ r, r ∈ rms → valid (mgr w) cls t r = Return false) ∧
     try_rooms cls t rms w = (Return false, w)).
Proof.
  intros Hk. induction 1 as [|room rms Hroom Hrms IH]; simpl.
  - right. split; [by intros r ?%elem_of_nil | done].
  - rewrite run_bind, is_valid_run.
    destruct (valid_returns (mgr w) cls t room Hk Hroom) as [[|] Hv];
      rewrite Hv.
    + left. exists [], room, rms. split_and!; [done| |done|].
      * by intros r' ?%elem_of_nil.
      * rewrite run_bind.
        by destruct (assign_schedule_returns cls t room w Hv) as [-> _].
    + destruct IH as [(rpre & r & rpost & -> & Hpre & Hvr & Hrun)|[Hall Hrun]].
      * left. exists (room :: rpre), r, rpost. split_and!; [done| |done..].
        intros r' [->|Hr']%elem_of_cons; [done | by apply Hpre].
      * right. split; [|done].
        intros r [->|Hr]%elem_of_cons; [done | by apply Hall].
Qed.

Lemma try_slots_first cls candidates w :
  knows (mgr w) cls → rooms_covered (mgr w) →
  (∃ t r, first_feasible (mgr w) cls candidates t r ∧
          try_slots cls candidates w =
            (Return true, (assign_schedule cls t r w).2))
  ∨ ((∀ t r, t ∈ candidates → r ∈ rooms (mgr w) →
             valid (mgr w) cls t r = Return false) ∧
     try_slots cls candidates w = (Return false, w)).
Proof.
  intros Hk Hcov. induction candidates as [|t rest IH]; simpl.
  - right. split; [by intros t r ?%elem_of_nil | done].
  - rewrite run_bind, run_gets, run_bind.
    destruct (try_rooms_first cls t (rooms (mgr w)) w Hk Hcov)
      as [(rpre & r & rpost & Hrooms & Hpre & Hv & ->)|[Hnone ->]].
    + left. exists t, r. split; [|done].
      exists [], rest, rpre, rpost. split_and!; try done.
      by intros t' r' ?%elem_of_nil.
    + destruct IH as [(t' & r & Hff & Hrun)|[Hall Hrun]].
      * left. exists t', r. split; [|done].
        destruct Hff as (pre & post & rpre & rpost & -> & Hrooms & Hpre
                         & Hrpre & Hv).
        exists (t :: pre), post, rpre, rpost. split_and!; try done.
        intros t'' r'' [->|Ht'']%elem_of_cons Hr''; [by apply Hnone|].
        by apply Hpre.
      * right. split; [|done].
        intros t' r [->|Ht']%elem_of_cons Hr; [by apply Hnone|by apply Hall].
Qed.

(** X8. First fit, and nothing else: for a class the manager knows, with
    every room covered by a capacity, [generate_schedule] commits the class
    to the first candidate slot (preferred slots first, then the universe in
    its order) that has an admissible room, in the first admissible room of
    the room list; it reports the class, leaving schedules untouched, only
    when no candidate slot has an admissible room at all. *)
Theorem schedule_class_first_fit
    (order : SetOrder) (cls : Class) (w : World) :
  knows (mgr w) cls → rooms_covered (mgr w) →
  (∃ t r, first_feasible (mgr w) cls (candidate_slots order (mgr w) cls) t r ∧
          schedule_class order cls w =
            (Return tt, (assign_schedule cls t r w).2))
  ∨ ((∀ t r, t ∈ candidate_slots order (mgr w) cls → r ∈ rooms (mgr w) →
             valid (mgr w) cls t r = Return false) ∧
     schedule_class order cls w = provide_feedback cls w ∧
     mgr (schedule_class order cls w).2 = mgr w ∧
     journal (schedule_class order cls w).2 = journal w).
Proof.
  intros Hk Hcov. rewrite schedule_class_run.
  fold (candidate_slots order (mgr w) cls).
  destruct (try_slots_first cls (candidate_slots order (mgr w) cls) w Hk Hcov)
    as [(t & r & Hff & ->)|[Hnone ->]].
  - left. by exists t, r.
  - right. split_and!; [done..| |].
    + rewrite provide_feedback_run. by destruct (feedback_issues cls w).1.
    + rewrite provide_feedback_run. by destruct (feedback_issues cls w).1.
Qed.

Lemma schedule_class_first_fit_witness :
  (∃ t r, first_feasible (mgr Example.configured) Example.Math
            (candidate_slots first_list_order (mgr Example.configured)
               Example.Math) t r ∧
          schedule_class first_list_order Example.Math Example.configured =
            (Return tt,
             (assign_schedule Example.Math t r Example.configured).2))
  ∨ ((∀ t r, t ∈ candidate_slots first_list_order (mgr Example.configured)
                   Example.Math →
             r ∈ rooms (mgr Example.configured) →
             valid (mgr Example.configured) Example.Math t r = Return false) ∧
     schedule_class first_list_order Example.Math Example.configured
       = provide_feedback Example.Math Example.configured ∧
     mgr (schedule_class first_list_order Example.Math
            Example.configured).2 = mgr Example.configured ∧
     journal (schedule_class first_list_order Example.Math
                Example.configured).2 = journal Example.configured).
Proof.
  apply (schedule_class_first_fit first_list_order Example.Math
           Example.configured).
  - split_and!; compute_done.
  - compute_done.
Defined.

(** ** Runs that do not raise *)

Lemma for_each_apply_setting_returns settings w :
  (for_each apply_setting settings w).1 = Return tt.
Proof.
  revert w. induction settings as [|s settings IH]; intros w; [done|].
  simpl. rewrite run_bind.
  destruct s as [p prefs|g prefs]; simpl.
  - rewrite set_professor_preferences_run. apply IH.
  - rewrite set_group_preferences_run. apply IH.
Qed.

Lemma for_each_schedule_class_returns order cs w :
  Forall (knows (mgr w)) cs → rooms_covered (mgr w) →
  (for_each (schedule_class order) cs w).1 = Return tt.
Proof.
  revert w. induction cs as [|cls cs IH]; intros w Hk Hcov; [done|].
  apply Forall_cons in Hk as [Hcls Hcs]. simpl. rewrite run_bind.
  pose proof (later_schedule_class order cls w) as Hl.
  assert (∃ w1, schedule_class order cls w = (Return tt, w1)) as [w1 Hrun].
  { destruct Hcls as ([sz Hsz] & Hps & Hgs).
    destruct (schedule_class_outcome order cls w sz Hsz Hps Hgs Hcov)
      as [(t & r & _ & ->)| ->]; by eexists. }
  rewrite Hrun in *. simpl in Hl. apply IH.
  - eapply Forall_impl; [done|]. intros c. by apply later_knows.
  - by apply (later_rooms_covered w).
Qed.

Lemma init_rooms_covered cs profs grps slots rms caps :
  (∀ d, caps = Some d → d ≠ ∅ → ∀ room, room ∈ rms → is_Some (d !! room)) →
  rooms_covered (init cs profs grps slots rms caps).
Proof.
  intros Hcaps. unfold rooms_covered. apply Forall_forall. intros room Hroom.
  simpl. destruct (truthy caps) eqn:Htruthy.
  - destruct caps as [d|]; [|done]. simpl in *.
    apply negb_true_iff, bool_decide_eq_false in Htruthy. by apply Hcaps.
  - rewrite dict_comp_const_lookup, decide_True by done. by eexists.
Qed.

(** X9. A session on well-formed input never raises: when every class names
    a professor of the professor list and a group of the group list, and
    the capacity dict is omitted, empty, or has an entry for every room,
    then construction, any preference settings and [generate_schedule]
    return normally, whether or not every class could be assigned. *)
Theorem generate_schedule_returns
    (order : SetOrder) (cs : list Class) (profs grps : list string)
    (slots : list Slot) (rms : list string)
    (room_capacities : option (gmap string Z)) (settings : list setting) :
  (∀ cls, cls ∈ cs → cls_professor cls ∈ profs ∧ cls_group cls ∈ grps) →
  (∀ d, room_capacities = Some d → d ≠ ∅ →
        ∀ room, room ∈ rms → is_Some (d !! room)) →
  ((for_each apply_setting settings;; generate_schedule order)
     (fresh (init cs profs grps slots rms room_capacities))).1 = Return tt.
Proof.
  intros Hcs Hcaps. set (w0 := fresh (init cs profs grps slots rms _)).
  rewrite run_bind.
  pose proof (for_each_apply_setting_returns settings w0) as Hret.
  pose proof (later_for_each apply_setting settings w0 later_apply_setting)
    as Hl.
  destruct (for_each apply_setting settings w0) as [o w1]. simpl in *.
  subst o. unfold generate_schedule. rewrite run_bind, run_gets.
  rewrite (later_classes _ _ Hl). simpl classes.
  apply for_each_schedule_class_returns.
  - apply Forall_forall. intros cls Hcls.
    apply (later_knows w0 w1); [done|].
    destruct (Hcs cls Hcls). by apply init_knows.
  - apply (later_rooms_covered w0 w1); [done|]. by apply init_rooms_covered.
Qed.

Lemma generate_schedule_returns_witness :
  ((for_each apply_setting
      [SetProfessorPreferences "Prof. A" [Example.Mon9; Example.Tue10];
       SetGroupPreferences "Group 1" [Example.Mon9; Example.Mon10]];;
    generate_schedule first_list_order)
     (fresh Example.timetable_manager)).1 = Return tt.
Proof.
  apply (generate_schedule_returns first_list_order Example.classes
           Example.professors Example.groups Example.time_slots
           Example.rooms (Some Example.room_capacities)).
  - intros cls Hcls.
    repeat (apply elem_of_cons in Hcls as [->|Hcls]; [split; compute_done|]).
    by apply elem_of_nil in Hcls.
  - intros d [= <-] _ room Hroom.
    repeat (apply elem_of_cons in Hroom as [->|Hroom]; [compute_done|]).
    by apply elem_of_nil in Hroom.
Defined.

(** ** What a run adds, and what it leaves alone *)

Lemma keeps_records_invariant w0 : schedule_invariant (keeps_records w0).
Proof.
  split.
  - intros cls t r w [Hp Hg] Hv.
    apply valid_true in Hv
      as (sz & ps & gs & cap & _ & Hps & Hpt & Hgs & Hgt & _ & _).
    rewrite (assign_schedule_run _ _ _ _ ps gs) by done. simpl. split.
    + intros p t' e He. rewrite booked_prof_record by done.
      case_decide as Hkey; [|by apply Hp].
      injection Hkey as <- <-. apply Hp in He.
      unfold prof_record in He. rewrite Hps in He. simpl in He. congruence.
    + intros g t' e He. rewrite booked_group_record by done.
      case_decide as Hkey; [|by apply Hg].
      injection Hkey as <- <-. apply Hg in He.
      unfold group_record in He. rewrite Hgs in He. simpl in He. congruence.
  - by intros lines w.
Qed.

Lemma output_grows_invariant w0 :
  schedule_invariant (λ w, (∃ lines, stdout w = stdout w0 ++ lines) ∧
                           ∃ new, journal w = journal w0 ++ new).
Proof.
  split.
  - intros cls t r w [[lines Hout] [new Hj]] Hv.
    destruct (assign_schedule_returns cls t r w Hv) as (_ & _ & -> & ->).
    split; [by exists lines|]. eexists. by rewrite Hj, <- app_assoc.
  - intros lines' w [[lines Hout] Hj]. split; [|done]. simpl.
    eexists. by rewrite Hout, <- app_assoc.
Qed.

(** X10. [generate_schedule] only adds: it leaves the seven inputs and both
    preference dicts as they were, keeps every occupancy record that existed
    before the run exactly as it was, and only appends to the output, also
    when it is run on a timetable that is already partly filled and also
    when it ends in an exception. *)
Theorem generate_schedule_only_adds (order : SetOrder) (w : World) :
  let w' := (generate_schedule order w).2 in
  classes (mgr w') = classes (mgr w) ∧
  professors (mgr w') = professors (mgr w) ∧
  groups (mgr w') = groups (mgr w) ∧
  time_slots (mgr w') = time_slots (mgr w) ∧
  rooms (mgr w') = rooms (mgr w) ∧
  room_capacity (mgr w') = room_capacity (mgr w) ∧
  class_sizes (mgr w') = class_sizes (mgr w) ∧
  professor_preferences (mgr w') = professor_preferences (mgr w) ∧
  group_preferences (mgr w') = group_preferences (mgr w) ∧
  (∀ p t e, prof_record (mgr w) p t = Some e →
            prof_record (mgr w') p t = Some e) ∧
  (∀ g t e, group_record (mgr w) g t = Some e →
            group_record (mgr w') g t = Some e) ∧
  (∃ lines, stdout w' = stdout w ++ lines).
Proof.
  intros w'.
  pose proof (later_generate_schedule order w) as Hl.
  pose proof (generate_schedule_preserves _ order
                (same_preferences_invariant w) w (conj eq_refl eq_refl))
    as [Hpp Hgp].
  pose proof (generate_schedule_preserves _ order
                (keeps_records_invariant w) w
                (conj (λ _ _ _ H, H) (λ _ _ _ H, H))) as [Hpr Hgr].
  pose proof (generate_schedule_preserves _ order
                (output_grows_invariant w) w) as [Hout _].
  { split; exists []; by rewrite app_nil_r. }
  destruct Hl. by split_and!.
Qed.

(** ** Any use of a manager *)

Lemma apply_step_no_double_booking order s :
  preserves no_double_booking (apply_step order s).
Proof.
  destruct s as [s|]; simpl.
  - apply apply_setting_no_double_booking.
  - apply generate_schedule_preserves, no_double_booking_invariant.
Qed.

Lemma steps_no_double_booking order cs profs grps slots rms caps steps :
  no_double_booking
    (for_each (apply_step order) steps
       (fresh (init cs profs grps slots rms caps))).2.
Proof.
  apply preserves_for_each.
  - intros s. apply apply_step_no_double_booking.
  - apply fresh_init_no_double_booking.
Qed.

Lemma no_double_booking_mirror w p t e :
  no_double_booking w →
  prof_record (mgr w) p t = Some e ↔
  group_record (mgr w) (pe_group e) t
    = Some {| ge_class := pe_class e; ge_room := pe_room e;
              ge_professor := p |}.
Proof.
  intros [_ _ Hpr Hgr]. rewrite Hpr, Hgr. split.
  - intros (b & Hb & [= <- <-] & ->). exists b. by split_and!.
  - intros (b & Hb & [= Hg <-] & [= Hc Hr Hp]). exists b.
    split_and!; [done|by rewrite Hp|].
    destruct e as [c r g]. simpl in *. unfold prof_entry. congruence.
Qed.

(** X11. However a client interleaves preference settings and runs of
    [generate_schedule] on a new manager (the scheduler may be run several
    times, each run processing the whole class list again), no owner is
    ever double-booked: no two calls of [assign_schedule] share a
    (professor, slot) or a (group, slot), and the schedules hold exactly the
    records of those calls. *)
Theorem repeated_runs_no_double_booking
    (order : SetOrder) (cs : list Class) (profs grps : list string)
    (slots : list Slot) (rms : list string)
    (room_capacities : option (gmap string Z)) (steps : list step) :
  let w := (for_each (apply_step order) steps
              (fresh (init cs profs grps slots rms room_capacities))).2 in
  no_double_booking w ∧
  ∀ i j b1 b2,
    journal w !! i = Some b1 → journal w !! j = Some b2 →
    prof_key b1 = prof_key b2 ∨ group_key b1 = group_key b2 →
    i = j.
Proof.
  intros w.
  assert (no_double_booking w) as Hw by apply steps_no_double_booking.
  split; [done|].
  intros i j b1 b2. by apply no_double_booking_distinct_calls.
Qed.

(** X12. The two schedules mirror each other: after any interleaving of
    preference settings and runs on a new manager, professor [p] has the
    record (class, room, group [g]) at a slot exactly when group [g] has the
    record (class, room, professor [p]) at that slot. *)
Theorem schedules_mirror_each_other
    (order : SetOrder) (cs : list Class) (profs grps : list string)
    (slots : list Slot) (rms : list string)
    (room_capacities : option (gmap string Z)) (steps : list step) :
  let w := (for_each (apply_step order) steps
              (fresh (init cs profs grps slots rms room_capacities))).2 in
  ∀ p t c r g,
    prof_record (mgr w) p t
      = Some {| pe_class := c; pe_room := r; pe_group := g |} ↔
    group_record (mgr w) g t
      = Some {| ge_class := c; ge_room := r; ge_professor := p |}.
Proof.
  intros w p t c r g.
  apply (no_double_booking_mirror w p t
           {| pe_class := c; pe_room := r; pe_group := g |}).
  apply steps_no_double_booking.
Qed.

(** ** Which calls of [assign_schedule] a run makes *)

Lemma try_rooms_cases cls t rms w :
  (∃ r, r ∈ rms ∧ valid (mgr w) cls t r = Return true ∧
        try_rooms cls t rms w = (Return true, (assign_schedule cls t r w).2))
  ∨ ((try_rooms cls t rms w).2 = w ∧ (try_rooms cls t rms w).1 ≠ Return true).
Proof.
  induction rms as [|room rms IH]; simpl; [by right|].
  rewrite run_bind, is_valid_run.
  destruct (valid (mgr w) cls t room) as [[|]|e] eqn:Hv.
  - left. exists room. split_and!; [left | done |].
    rewrite run_bind.
    by destruct (assign_schedule_returns cls t room w Hv) as [-> _].
  - destruct IH as [(r & Hr & Hvr & Hrun)|IH]; [|by right].
    left. exists r. split_and!; [by right | done..].
  - by right.
Qed.

Lemma try_slots_cases cls candidates w :
  (∃ t r, t ∈ candidates ∧ r ∈ rooms (mgr w) ∧
          valid (mgr w) cls t r = Return true ∧
          try_slots cls candidates w =
            (Return true, (assign_schedule cls t r w).2))
  ∨ ((try_slots cls candidates w).2 = w ∧
     (try_slots cls candidates w).1 ≠ Return true).
Proof.
  induction candidates as [|t rest IH]; simpl; [by right|].
  rewrite run_bind, run_gets, run_bind.
  destruct (try_rooms_cases cls t (rooms (mgr w)) w)
    as [(r & Hr & Hv & ->)|[Hw Ho]].
  - left. exists t, r. split_and!; [left | done..].
  - destruct (try_rooms cls t (rooms (mgr w)) w) as [[[|]|e] w1];
      simpl in *; subst; [done| |by right].
    destruct IH as [(t' & r & Ht' & Hr & Hv & Hrun)|IH]; [|by right].
    left. exists t', r. split_and!; [by right | done..].
Qed.

(** Processing one class makes at most one call, for that class, a room of
    the room list and a candidate slot. *)
Lemma schedule_class_cases order cls w :
  (∃ t r, (common_preference (mgr w) cls t ∨ t ∈ time_slots (mgr w)) ∧
          r ∈ rooms (mgr w) ∧
          valid (mgr w) cls t r = Return true ∧
          schedule_class order cls w =
            (Return tt, (assign_schedule cls t r w).2))
  ∨ journal (schedule_class order cls w).2 = journal w.
Proof.
  rewrite schedule_class_run.
  destruct (try_slots_cases cls
              (intersection_list order
                 (default [] (professor_preferences (mgr w)
                                !! cls_professor cls))
                 (default [] (group_preferences (mgr w) !! cls_group cls))
               ++ time_slots (mgr w)) w)
    as [(t & r & Ht & Hr & Hv & ->)|[Hw Ho]].
  - left. exists t, r. split_and!; try done.
    apply elem_of_app in Ht as [Ht|Ht]; [left|by right].
    by apply intersection_list_elem in Ht.
  - right. destruct (try_slots cls _ w) as [[[|]|e] w1]; simpl in *; subst;
      [done| |done].
    rewrite provide_feedback_run. by destruct (feedback_issues cls w).1.
Qed.

Lemma for_each_schedule_class_journal order cs w :
  ∃ new,
    journal (for_each (schedule_class order) cs w).2 = journal w ++ new ∧
    (bk_class <$> new) `sublist_of` cs ∧
    ∀ b, b ∈ new →
      bk_room b ∈ rooms (mgr w) ∧
      (common_preference (mgr w) (bk_class b) (bk_slot b) ∨
       bk_slot b ∈ time_slots (mgr w)).
Proof.
  revert w. induction cs as [|cls cs IH]; intros w.
  - exists []. simpl. rewrite app_nil_r. split_and!; [done..|].
    by intros b ?%elem_of_nil.
  - simpl. rewrite run_bind.
    pose proof (later_schedule_class order cls w) as Hl.
    pose proof (schedule_class_preserves _ order cls
                  (same_preferences_invariant w) w (conj eq_refl eq_refl))
      as [Hpp Hgp].
    assert (∃ new1,
      journal (schedule_class order cls w).2 = journal w ++ new1 ∧
      (bk_class <$> new1) `sublist_of` [cls] ∧
      ∀ b, b ∈ new1 →
        bk_room b ∈ rooms (mgr w) ∧
        (common_preference (mgr w) (bk_class b) (bk_slot b) ∨
         bk_slot b ∈ time_slots (mgr w))) as (new1 & Hj1 & Hsub1 & Hin1).
    { destruct (schedule_class_cases order cls w)
        as [(t & r & Ht & Hr & Hv & Hrun)|Hsame].
      - exists [{| bk_class := cls; bk_slot := t; bk_room := r |}].
        rewrite Hrun. simpl.
        destruct (assign_schedule_returns cls t r w Hv) as (_ & _ & _ & ->).
        split_and!; [done..|].
        by intros b ->%list_elem_of_singleton.
      - exists []. rewrite Hsame, app_nil_r. split_and!; [done| |].
        + apply sublist_nil_l.
        + by intros b ?%elem_of_nil. }
    destruct (schedule_class order cls w) as [[[]|e] w1]; simpl in *.
    + destruct (IH w1) as (new & Hj & Hsub & Hin).
      exists (new1 ++ new). split_and!.
      * by rewrite Hj, Hj1, app_assoc.
      * rewrite fmap_app. by apply (sublist_app _ [cls] _ cs).
      * intros b [Hb|Hb]%elem_of_app; [by apply Hin1|].
        destruct (Hin b Hb) as [Hroom Hslot].
        unfold common_preference in *.
        by rewrite (later_rooms _ _ Hl), (later_time_slots _ _ Hl), Hpp, Hgp
          in *.
    + exists new1. split_and!; [done| |done].
      etrans; [done|]. apply sublist_skip, sublist_nil_l.
Qed.

(** X13. A run books only what it was given: the calls of
    [assign_schedule] made by [generate_schedule] are for classes of the
    class list, in the order of the list and at most one per entry, each in
    a room of the room list and at a slot that is either in the universe or
    a common preference of the class's professor and group (which need not
    be in the universe: preferences are never checked against it). *)
Theorem generate_schedule_books_listed (order : SetOrder) (w : World) :
  ∃ new,
    journal (generate_schedule order w).2 = journal w ++ new ∧
    (bk_class <$> new) `sublist_of` classes (mgr w) ∧
    length new ≤ length (classes (mgr w)) ∧
    ∀ b, b ∈ new →
      bk_room b ∈ rooms (mgr w) ∧
      (common_preference (mgr w) (bk_class b) (bk_slot b) ∨
       bk_slot b ∈ time_slots (mgr w)).
Proof.
  unfold generate_schedule. rewrite run_bind, run_gets.
  destruct (for_each_schedule_class_journal order (classes (mgr w)) w)
    as (new & Hj & Hsub & Hin).
  exists new. split_and!; [done..| |done].
  apply sublist_length in Hsub. by rewrite length_fmap in Hsub.
Qed.

(** ** Diagnostics at the edges *)

Ltac step_all_of w b :=
  rewrite run_bind;
  match goal with
  | |- context [all_of ?p ?l w] =>
      let Hro := fresh "Hro" in
      assert (read_only (all_of p l)) as Hro
        by (apply read_only_all_of; intros ?; solve_read_only);
      specialize (Hro w);
      destruct (all_of p l w) as [[b|?] ?]; simpl in Hro; subst;
      [|try discriminate]
  end.

(** What [provide_feedback] can find, whatever the state: some of the three
    reasons, in their order. *)
Lemma feedback_issues_shape cls w issues :
  (feedback_issues cls w).1 = Return issues →
  ∃ class_size,
    class_sizes (mgr w) !! cls_name cls = Some class_size ∧
    issues `sublist_of`
      [professor_issue (cls_professor cls); group_issue (cls_group cls);
       room_issue (cls_name cls) class_size].
Proof.
  unfold feedback_issues. cbv zeta.
  rewrite run_bind, run_self_getitem.
  destruct (class_sizes (mgr w) !! cls_name cls) as [sz|]; [|done].
  rewrite run_bind, run_gets. step_all_of w b1.
  rewrite run_bind, run_gets. step_all_of w b2.
  rewrite run_bind, run_gets. step_all_of w b3.
  rewrite run_ret. simpl. intros [= <-]. exists sz. split; [done|].
  generalize (professor_issue (cls_professor cls)) as a.
  generalize (group_issue (cls_group cls)) as b.
  generalize (room_issue (cls_name cls) sz) as c. intros c b a.
  destruct b1, b2, b3; simpl;
    repeat first [apply sublist_nil | apply sublist_skip | apply sublist_cons].
Qed.

(** X14. [provide_feedback] only prints: whatever the class and the state,
    and also when it raises, it leaves the manager as it was; what it prints
    is either nothing or the header line followed by one to three of the
    reasons (professor, group, room), in that order, each on a line starting
    with "- ". *)
Theorem provide_feedback_only_prints (cls : Class) (w : World) :
  let w' := (provide_feedback cls w).2 in
  mgr w' = mgr w ∧
  journal w' = journal w ∧
  (stdout w' = stdout w ∨
   ∃ reasons class_size,
     class_sizes (mgr w) !! cls_name cls = Some class_size ∧
     reasons ≠ [] ∧
     reasons `sublist_of`
       [professor_issue (cls_professor cls); group_issue (cls_group cls);
        room_issue (cls_name cls) class_size] ∧
     stdout w' =
       stdout w ++ feedback_header cls :: ((λ i, "- " +:+ i) <$> reasons)).
Proof.
  intros w'. unfold w'. rewrite provide_feedback_run.
  destruct (feedback_issues cls w).1 as [issues|e] eqn:Hissues;
    [|by split_and!; [..|left]].
  simpl. split_and!; [done..|].
  destruct issues as [|i issues]; [left; simpl; by rewrite app_nil_r|].
  right. destruct (feedback_issues_shape cls w _ Hissues) as (sz & Hsz & Hsub).
  by exists (i :: issues), sz.
Qed.

Lemma feedback_issues_no_slots cls w class_size :
  time_slots (mgr w) = [] →
  class_sizes (mgr w) !! cls_name cls = Some class_size →
  rooms_covered (mgr w) →
  feedback_issues cls w =
  (Return ([professor_issue (cls_professor cls);
            group_issue (cls_group cls)]
           ++ if bool_decide (no_room_fits (mgr w) class_size)
              then [room_issue (cls_name cls) class_size] else []), w).
Proof.
  intros Hslots Hsz Hcov. unfold feedback_issues. cbv zeta.
  rewrite run_bind, run_self_getitem, Hsz.
  rewrite run_bind, run_gets, Hslots. simpl all_of. rewrite run_bind, run_ret.
  rewrite run_bind, run_gets, Hslots. simpl all_of. rewrite run_bind, run_ret.
  rewrite run_bind, run_gets, run_bind.
  rewrite (all_of_run _ (λ room, bool_decide
             (exceeds class_size (room_capacity (mgr w) !! room))));
    last first.
  { intros room Hroom. rewrite run_bind, run_self_getitem.
    unfold rooms_covered in Hcov. rewrite Forall_forall in Hcov.
    destruct (Hcov room Hroom) as [cap ->]. done. }
  rewrite (forallb_bool_decide _ (λ room,
             exceeds class_size (room_capacity (mgr w) !! room))); last first.
  { intros room _. apply bool_decide_eq_true. }
  by rewrite run_ret.
Qed.

(** X15. With an empty slot universe and no common preference the list of
    candidate slots is empty, so the loops have no slot to try. When the
    class's name has a registered size and every room of the room list has a
    capacity, the class is then rejected without an exception and, because
    [all] of nothing is true, it is reported as having "no available time
    slots" for its professor and for its group, even when the manager has no
    schedule for that professor or group (their lookups are never
    evaluated); the room reason follows when no room fits. *)
Theorem empty_universe_rejects_everything
    (order : SetOrder) (cls : Class) (w : World) (class_size : Z) :
  time_slots (mgr w) = [] →
  (∀ t, ¬ common_preference (mgr w) cls t) →
  class_sizes (mgr w) !! cls_name cls = Some class_size →
  rooms_covered (mgr w) →
  candidate_slots order (mgr w) cls = [] ∧
  schedule_class order cls w =
  (Return tt,
   printed
     (feedback_header cls ::
      ("- " +:+ professor_issue (cls_professor cls)) ::
      ("- " +:+ group_issue (cls_group cls)) ::
      if bool_decide (no_room_fits (mgr w) class_size)
      then ["- " +:+ room_issue (cls_name cls) class_size] else [])
     w).
Proof.
  intros Hslots Hnone Hsz Hcov.
  assert (intersection_list order
            (default [] (professor_preferences (mgr w) !! cls_professor cls))
            (default [] (group_preferences (mgr w) !! cls_group cls)) = [])
    as Hnil.
  { apply nil_of_no_elem.
    intros t Ht%intersection_list_elem. by apply (Hnone t). }
  split; [unfold candidate_slots; by rewrite Hnil, Hslots|].
  rewrite schedule_class_run, Hslots, Hnil.
  simpl try_slots. rewrite run_ret, provide_feedback_run.
  rewrite (feedback_issues_no_slots cls w class_size) by done. simpl.
  by destruct (bool_decide (no_room_fits (mgr w) class_size)).
Qed.

Lemma empty_universe_rejects_everything_witness :
  let w := fresh (init [UnknownProfessor.Seminar] ["P"] ["G"] [] ["R1"] None) in
  professor_schedule (mgr w) !! "Q" = None ∧
  candidate_slots first_list_order (mgr w) UnknownProfessor.Seminar = [] ∧
  schedule_class first_list_order UnknownProfessor.Seminar w =
  (Return tt,
   printed
     ["Unable to assign class Seminar for group G by professor Q. Reasons:";
      "- No available time slots for professor Q.";
      "- No available time slots for group G."]
     w).
Proof.
  intros w.
  destruct (empty_universe_rejects_everything first_list_order
              UnknownProfessor.Seminar w 20%Z) as [Hnil Hrun].
  - reflexivity.
  - intros t [Ht _]. vm_compute in Ht. by apply elem_of_nil in Ht.
  - reflexivity.
  - compute_done.
  - split; [reflexivity|]. split; [exact Hnil|].
    rewrite Hrun. reflexivity.
Defined.

(** ** A new manager *)

(** X16. A new manager is empty: each listed professor and group (a repeated
    id counts once) has an empty preference list and an empty schedule, and
    no other id has either; so no class has a preferred slot, and for a
    class of the list with a listed professor and group [is_valid] answers,
    at every slot (in the universe or not), whether the registered size
    fits the room. *)
Theorem new_manager_is_empty
    (cs : list Class) (profs grps : list string) (slots : list Slot)
    (rms : list string) (room_capacities : option (gmap string Z)) :
  let m := init cs profs grps slots rms room_capacities in
  (∀ p, professor_preferences m !! p
          = (if decide (p ∈ profs) then Some [] else None) ∧
        professor_schedule m !! p
          = (if decide (p ∈ profs) then Some ∅ else None)) ∧
  (∀ g, group_preferences m !! g
          = (if decide (g ∈ grps) then Some [] else None) ∧
        group_schedule m !! g
          = (if decide (g ∈ grps) then Some ∅ else None)) ∧
  (∀ order cls, get_preferred_slots order cls (fresh m) = (Return [], fresh m)) ∧
  (∀ cls t r capacity,
     cls ∈ cs → cls_professor cls ∈ profs → cls_group cls ∈ grps →
     room_capacity m !! r = Some capacity →
     ∃ class_size,
       class_sizes m !! cls_name cls = Some class_size ∧
       is_valid cls t r (fresh m)
       = (Return (bool_decide (class_size ≤ capacity)%Z), fresh m)).
Proof.
  intros m.
  assert (∀ p, professor_preferences m !! p
                 = (if decide (p ∈ profs) then Some [] else None)) as Hpp
    by (intros p; apply dict_comp_const_lookup).
  assert (∀ g, group_preferences m !! g
                 = (if decide (g ∈ grps) then Some [] else None)) as Hgp
    by (intros g; apply dict_comp_const_lookup).
  assert (∀ p, professor_schedule m !! p
                 = (if decide (p ∈ profs) then Some ∅ else None)) as Hps
    by (intros p; apply dict_comp_const_lookup).
  assert (∀ g, group_schedule m !! g
                 = (if decide (g ∈ grps) then Some ∅ else None)) as Hgs
    by (intros g; apply dict_comp_const_lookup).
  split_and!; [by intros p | by intros g | |].
  - intros order cls. unfold get_preferred_slots.
    rewrite run_bind, run_gets. cbv beta iota.
    rewrite run_bind, run_gets. cbv beta iota. rewrite run_ret.
    f_equal. f_equal. apply nil_of_no_elem. intros t.
    rewrite intersection_list_elem. simpl mgr. rewrite Hpp.
    case_decide; simpl; by intros [?%elem_of_nil _].
  - intros cls t r capacity Hcls Hp Hg Hcap.
    destruct (init_knows cs profs grps slots rms room_capacities cls
                Hcls Hp Hg) as ([sz Hsz] & _ & _).
    fold m in Hsz. exists sz. split; [done|].
    rewrite is_valid_run, valid_unfold. simpl mgr.
    rewrite Hsz, Hps, Hgs, Hcap, !decide_True by done. done.
Qed.
